(** * AIJobMatcher: the job-posting cleaning pipeline and the LLM adapter

    A shallow embedding of [jobs_clean.py] (text normalisation, quality
    filter, duplicate collapsing, schema check) and of [llm_reasoning.py]
    ([run_one] and the helpers it calls), with the properties the
    specification states about them.

    Python strings are sequences of Unicode code points; they are modelled
    as lists of code points ([N]).  The regular expressions of the module
    are modelled by the length of the match they have at the start of a
    string, and [re.sub] by a left-to-right scan over non-overlapping
    matches. *)

From Stdlib Require Import ZArith NArith Ascii String DecimalString Lia.
From stdpp Require Import base option list gmap.

Set Warnings "-register-all,-clear-no-such-hyp".

Local Open Scope N_scope.

(** ** Python strings *)

Definition pystr := list N.

(** A string literal of the source, as a list of code points. *)
Definition py (s : string) : pystr := map N_of_ascii (list_ascii_of_string s).

Definition SPACE : N := 32.   (* " " *)
Definition NBSP : N := 160.   (* U+00A0, the non-breaking space *)
Definition LT : N := 60.      (* "<" *)
Definition GT : N := 62.      (* ">" *)

Definition in_range (lo hi c : N) : bool := (lo <=? c) && (c <=? hi).

(** [\s] of [re] on [str] patterns, which is also the set [str.strip()]
    removes: the code points for which [str.isspace()] holds. *)
Definition is_space (c : N) : bool :=
  in_range 9 13 c || in_range 28 31 c || (c =? 32) || (c =? 133) ||
  (c =? 160) || (c =? 5760) || in_range 8192 8202 c || (c =? 8232) ||
  (c =? 8233) || (c =? 8239) || (c =? 8287) || (c =? 12288).

Definition is_ascii_letter (c : N) : bool := in_range 65 90 c || in_range 97 122 c.
Definition is_ascii_digit (c : N) : bool := in_range 48 57 c.

(** The punctuation kept by [_ALLOWED_DESC]: + # . - / % ( ) : , *)
Definition is_tech_punct (c : N) : bool :=
  (c =? 43) || (c =? 35) || (c =? 46) || (c =? 45) || (c =? 47) ||
  (c =? 37) || (c =? 40) || (c =? 41) || (c =? 58) || (c =? 44).

(** The complement of the class [[^A-Za-z0-9\s\+\#\.\-\/\%\(\)\:\,]]. *)
Definition desc_allowed (c : N) : bool :=
  is_ascii_letter c || is_ascii_digit c || is_space c || is_tech_punct c.

(** ** Cell values *)

(** What a cell of the loaded table, or an argument of the cleaners, can
    be.  [VFloat] is a float other than NaN; binary floating point is not
    modelled, the constructor carries the text [str()] renders for it. *)
Inductive value :=
  | VNone
  | VNaN
  | VStr (s : pystr)
  | VInt (z : Z)
  | VBool (b : bool)
  | VFloat (shown : pystr).

Definition pd_isna (v : value) : bool :=
  match v with
  | VNone | VNaN => true
  | _ => false
  end.

(** [str(v)] *)
Definition py_str (v : value) : pystr :=
  match v with
  | VNone => py "None"
  | VNaN => py "nan"
  | VStr s => s
  | VInt z => py (NilEmpty.string_of_int (Z.to_int z))
  | VBool true => py "True"
  | VBool false => py "False"
  | VFloat shown => shown
  end.

(** ** [re.sub] and the patterns of the module *)

(** A pattern, given by the length of its match at the start of a string
    ([None]: no match there).  None of the patterns below matches the
    empty string. *)
Definition matcher := pystr → option nat.

(** [re_sub_from m repl skip s]: the scan of [re.sub], when the first
    [skip] characters of [s] still belong to the match just replaced. *)
Fixpoint re_sub_from (m : matcher) (repl : pystr) (skip : nat) (s : pystr) : pystr :=
  match s with
  | [] => []
  | c :: r =>
      match skip with
      | S k => re_sub_from m repl k r
      | O =>
          match m s with
          | Some (S k) => repl ++ re_sub_from m repl k r
          | _ => c :: re_sub_from m repl 0 r
          end
      end
  end.

(** [pattern.sub(repl, s)] *)
Definition re_sub (m : matcher) (repl : pystr) (s : pystr) : pystr :=
  re_sub_from m repl 0 s.

(** Number of characters before the first [>], when there is one. *)
Fixpoint upto_gt (s : pystr) : option nat :=
  match s with
  | [] => None
  | c :: r => if c =? GT then Some O else S <$> upto_gt r
  end.

(** [<[^>]+>] *)
Definition m_html : matcher := λ s,
  match s with
  | c :: r =>
      if c =? LT then
        match upto_gt r with
        | Some (S n) => Some (S (S (S n)))
        | _ => None
        end
      else None
  | [] => None
  end.

(** Length of the leading run of non-whitespace characters. *)
Fixpoint nonspace_run (s : pystr) : nat :=
  match s with
  | [] => O
  | c :: r => if is_space c then O else S (nonspace_run r)
  end.

(** Length of the leading run of whitespace characters. *)
Fixpoint space_run (s : pystr) : nat :=
  match s with
  | [] => O
  | c :: r => if is_space c then S (space_run r) else O
  end.

(** What follows the literal [lit] at the start of [s]. *)
Fixpoint lit_rest (lit s : pystr) : option pystr :=
  match lit with
  | [] => Some s
  | a :: lit' =>
      match s with
      | c :: r => if a =? c then lit_rest lit' r else None
      | [] => None
      end
  end.

(** A literal followed by [\S+]. *)
Definition lit_nonspace (lit : pystr) : matcher := λ s,
  match lit_rest lit s with
  | Some r =>
      match nonspace_run r with
      | O => None
      | S n => Some (length lit + S n)%nat
      end
  | None => None
  end.

(** [(https?://\S+|www\.\S+)] *)
Definition m_url : matcher := λ s,
  match lit_nonspace (py "http://") s with
  | Some n => Some n
  | None =>
      match lit_nonspace (py "https://") s with
      | Some n => Some n
      | None => lit_nonspace (py "www.") s
      end
  end.

(** [\s+] *)
Definition m_space : matcher := λ s,
  match space_run s with
  | O => None
  | S n => Some (S n)
  end.

(** [[^A-Za-z0-9\s\+\#\.\-\/\%\(\)\:\,]] *)
Definition m_disallowed : matcher := λ s,
  match s with
  | c :: _ => if desc_allowed c then None else Some 1%nat
  | [] => None
  end.

(** [s.replace(old, new)] for one-character [old] and [new]. *)
Definition str_replace (old new : N) (s : pystr) : pystr :=
  map (λ c, if c =? old then new else c) s.

Definition lstrip (s : pystr) : pystr := drop (space_run s) s.

Fixpoint rstrip (s : pystr) : pystr :=
  match s with
  | [] => []
  | c :: r =>
      match rstrip r with
      | [] => if is_space c then [] else [c]
      | r' => c :: r'
      end
  end.

(** [s.strip()] *)
Definition strip (s : pystr) : pystr := rstrip (lstrip s).

(** ** The two cleaners of [jobs_clean.py] *)

Definition clean_text (v : value) : pystr :=
  if pd_isna v then []
  else
    let s := py_str v in
    let s := str_replace NBSP SPACE s in
    let s := re_sub m_html [SPACE] s in
    let s := strip (re_sub m_space [SPACE] s) in
    s.

Definition clean_description (text : value) : pystr :=
  if pd_isna text then []
  else
    let s := py_str text in
    let s := str_replace NBSP SPACE s in
    let s := re_sub m_html [SPACE] s in
    let s := re_sub m_url [SPACE] s in
    let s := re_sub m_disallowed [SPACE] s in
    let s := strip (re_sub m_space [SPACE] s) in
    s.

(** ** Exceptions and results *)

Inductive exn :=
  | ValueError (msg : pystr)
  | KeyError (key : pystr)
  | TypeError
  | NotImplementedError
  | JSONDecodeError
  | OSError.

Inductive res (A : Type) :=
  | Ok (a : A)
  | Raise (e : exn).
Arguments Ok {A} a.
Arguments Raise {A} e.

#[global] Instance res_ret : MRet res := λ A a, Ok a.
#[global] Instance res_bind : MBind res := λ A B f m,
  match m with
  | Ok a => f a
  | Raise e => Raise e
  end.

(** ** The cleaners as calls *)

(** Whether [str(v)] raises.  CPython refuses to render an [int] that has
    more decimal digits than [sys.get_int_max_str_digits()], which is
    [max_str_digits] here: 4300 by default from CPython 3.11 on, 0 when
    there is no limit (also the case of older interpreters). *)
Definition str_fails (max_str_digits : Z) (v : value) : bool :=
  match v with
  | VInt z => (0 <? max_str_digits)%Z && (10 ^ max_str_digits <=? Z.abs z)%Z
  | _ => false
  end.

(** The exception of [str] on such an [int], with the message of CPython 3.11. *)
Definition int_str_error (max_str_digits : Z) : exn :=
  ValueError
    (py "Exceeds the limit (" ++ py_str (VInt max_str_digits)
       ++ py " digits) for integer string conversion; use sys.set_int_max_str_digits() to increase the limit").

(** [str(v)], as a call that returns or raises. *)
Definition str_call (max_str_digits : Z) (v : value) : res pystr :=
  if str_fails max_str_digits v then Raise (int_str_error max_str_digits)
  else Ok (py_str v).

(** [clean_text(s)], as a call that returns or raises. *)
Definition clean_text_call (max_str_digits : Z) (s : value) : res pystr :=
  if pd_isna s then Ok []
  else
    s ← str_call max_str_digits s;
    let s := str_replace NBSP SPACE s in
    let s := re_sub m_html [SPACE] s in
    let s := strip (re_sub m_space [SPACE] s) in
    mret s.

(** [clean_description(text)], as a call that returns or raises. *)
Definition clean_description_call (max_str_digits : Z) (text : value) : res pystr :=
  if pd_isna text then Ok []
  else
    s ← str_call max_str_digits text;
    let s := str_replace NBSP SPACE s in
    let s := re_sub m_html [SPACE] s in
    let s := re_sub m_url [SPACE] s in
    let s := re_sub m_disallowed [SPACE] s in
    let s := strip (re_sub m_space [SPACE] s) in
    mret s.

(** ** The table and the rows of [jobs_clean.py] *)

(** The frame [pd.read_csv] returns: the column labels of the header and
    the rows, cell by cell; a row shorter than the header has missing
    (NaN) cells at its end.  [df[c]] is modelled for labels that occur
    once; for a repeated label pandas gives a sub-frame, not a column. *)
Record DataFrame := {
  df_columns : list pystr;
  df_rows : list (list value)
}.

(** A row of [out] as step 3 builds it. *)
Record RawRow := {
  raw_job_id : value;
  raw_title : value;
  raw_company_id : value;
  raw_location : value;
  raw_description : value;
  raw_work_type : value;
  raw_remote_allowed : value;
  raw_experience_level : value;
  raw_job_posting_url : value
}.

(** A row of [out] after steps 4 and 5. *)
Record Row := {
  job_id : value;
  title : pystr;
  company_id : value;
  location : pystr;
  description : pystr;
  work_type : pystr;
  remote_allowed : value;
  experience_level : pystr;
  job_posting_url : pystr
}.

#[global] Instance value_eq_dec : EqDecision value.
Proof. solve_decision. Defined.
#[global] Instance Row_eq_dec : EqDecision Row.
Proof. solve_decision. Defined.

(** What [main] does to the outside: the lines it prints (a label and the
    numbers after it) and the table it saves. *)
Inductive event :=
  | Printed (label : pystr) (nums : list Z)
  | ToCsv (rows : list Row)
  | PrintSample (rows : list (value * pystr * pystr * pystr * value * pystr)).

Fixpoint index_of (c : pystr) (cols : list pystr) : option nat :=
  match cols with
  | [] => None
  | c' :: rest => if decide (c = c') then Some O else S <$> index_of c rest
  end.

(** [df[c]], by the position of the column; [KeyError] without it. *)
Definition col_index (df : DataFrame) (c : pystr) : res nat :=
  match index_of c (df_columns df) with
  | Some j => Ok j
  | None => Raise (KeyError c)
  end.

Definition cell (row : list value) (j : nat) : value := default VNaN (row !! j).

(** [df[c] if c in df.columns else ""] *)
Definition opt_cell (df : DataFrame) (row : list value) (c : pystr) : value :=
  match index_of c (df_columns df) with
  | Some j => cell row j
  | None => VStr []
  end.

Definition required : list pystr := [py "job_id"; py "title"; py "description"].

(** Step 3 of [main], for a frame in which the labels read here occur
    once each (see [DataFrame]). *)
Definition build_out (df : DataFrame) : res (list RawRow) :=
  i_job ← col_index df (py "job_id");
  i_title ← col_index df (py "title");
  i_desc ← col_index df (py "description");
  mret ((λ row,
    {| raw_job_id := cell row i_job;
       raw_title := cell row i_title;
       raw_company_id := opt_cell df row (py "company_id");
       raw_location := opt_cell df row (py "location");
       raw_description := cell row i_desc;
       raw_work_type := opt_cell df row (py "formatted_work_type");
       raw_remote_allowed := opt_cell df row (py "remote_allowed");
       raw_experience_level := opt_cell df row (py "formatted_experience_level");
       raw_job_posting_url := opt_cell df row (py "job_posting_url") |})
    <$> df_rows df).

(** [.fillna("")] on one cell. *)
Definition fillna_empty (v : value) : value := if pd_isna v then VStr [] else v.

(** Steps 4 and 5 of [main], on one row. *)
Definition clean_row (r : RawRow) : Row :=
  {| job_id := raw_job_id r;
     title := clean_text (raw_title r);
     company_id := raw_company_id r;
     location := clean_text (raw_location r);
     description := clean_description (raw_description r);
     work_type := clean_text (raw_work_type r);
     remote_allowed := fillna_empty (raw_remote_allowed r);
     experience_level := clean_text (raw_experience_level r);
     job_posting_url := clean_text (raw_job_posting_url r) |}.

(** Step 6: [out[out["description"].ne("")]], then
    [out[out["desc_len"] >= 80]]. *)
Definition quality_filter (out : list Row) : list Row :=
  let out := filter (λ r, description r ≠ []) out in
  filter (λ r, (80 ≤ Z.of_nat (length (description r)))%Z) out.

(** [(title, location, desc_sig)] with [desc_sig = description[:250]]. *)
Definition signature (r : Row) : pystr * pystr * pystr :=
  (title r, location r, take 250 (description r)).

(** [drop_duplicates(subset=...)] with the default [keep="first"]: one
    pass in row order that remembers the keys met so far. *)
Fixpoint drop_duplicates_from (seen : gset (pystr * pystr * pystr)) (out : list Row)
    : list Row :=
  match out with
  | [] => []
  | r :: rest =>
      if decide (signature r ∈ seen) then drop_duplicates_from seen rest
      else r :: drop_duplicates_from ({[signature r]} ∪ seen) rest
  end.

Definition drop_duplicates (out : list Row) : list Row := drop_duplicates_from ∅ out.

Definition len {A} (l : list A) : Z := Z.of_nat (length l).

Definition sample_fields (r : Row) : value * pystr * pystr * pystr * value * pystr :=
  (job_id r, title r, location r, work_type r, remote_allowed r, experience_level r).

Section JobsClean.

(** [repr] of a string (its quoting and escaping), from the Python runtime. *)
Variable repr_str : pystr → pystr.

Fixpoint join_comma (l : list pystr) : pystr :=
  match l with
  | [] => []
  | [x] => x
  | x :: rest => x ++ py ", " ++ join_comma rest
  end.

(** How an f-string renders a list of strings. *)
Definition list_repr (l : list pystr) : pystr :=
  py "[" ++ join_comma (repr_str <$> l) ++ py "]".

Definition schema_message (missing found : list pystr) : pystr :=
  py "Missing required columns: " ++ list_repr missing ++ [10]
    ++ py "Found: " ++ list_repr found.

(** [main], from the frame [pd.read_csv(DATA_PATH)] returned: what it
    prints and saves, and the exception that ends it, if one does.  The
    output directory and file are taken to be writable: an [OSError] of
    [mkdir] or [to_csv] is not modelled. *)
Definition main (df0 : DataFrame) : list event * option exn :=
  let df := {| df_columns := strip <$> df_columns df0; df_rows := df_rows df0 |} in
  let log := [Printed (py "Raw shape:") [len (df_rows df); len (df_columns df)]] in
  let missing := filter (λ c, c ∉ df_columns df) required in
  match missing with
  | _ :: _ => (log, Some (ValueError (schema_message missing (df_columns df))))
  | [] =>
      match build_out df with
      | Raise e => (log, Some e)
      | Ok out =>
          let out := clean_row <$> out in
          let before := len out in
          let out := quality_filter out in
          let log := log ++ [Printed (py "Dropped empty/too-short descriptions:") [before - len out]%Z] in
          let before := len out in
          let out := drop_duplicates out in
          let log := log ++ [Printed (py "Dropped duplicates:") [before - len out]%Z] in
          (log ++ [ToCsv out;
                   Printed (py "Clean shape:") [len out; 9%Z];
                   Printed (py "Saved to:") [];
                   PrintSample (sample_fields <$> take 3 out)], None)
      end
  end.

End JobsClean.

(** ** [llm_reasoning.py] *)

(** What [json.loads] returns.  A Python [dict] with string keys is a
    finite map; a float is carried by its literal. *)
Inductive json :=
  | JNull
  | JBool (b : bool)
  | JInt (z : Z)
  | JFloat (literal : pystr)
  | JStr (s : pystr)
  | JArr (items : list json)
  | JObj (fields : gmap pystr json).

(** [obj[key] = v]: a [dict] takes the item, anything else [json.loads]
    can return raises [TypeError]. *)
Definition setitem (obj : json) (key : pystr) (v : json) : res json :=
  match obj with
  | JObj fields => Ok (JObj (<[key := v]> fields))
  | _ => Raise TypeError
  end.

(** [call_llm] as the repository has it: a placeholder to be replaced by
    a call to a provider. *)
Definition call_llm_placeholder (message : pystr) : res pystr :=
  Raise NotImplementedError.

Definition PROMPT_PATH : pystr := py "llm_prompt.md".

Section LlmReasoning.

(** [Path.read_text(encoding="utf-8")], [json.loads] and
    [json.dumps(_, ensure_ascii=False, indent=2)] of the runtime, and the
    provider call that stands in place of [call_llm]. *)
Variable read_text : pystr → res pystr.
Variable json_loads : pystr → res json.
Variable json_dumps : json → pystr.
Variable call_llm : pystr → res pystr.

Definition load_prompt : res pystr := read_text PROMPT_PATH.

Definition build_message (prompt_template : pystr) (fit_score : Z)
    (resume_json job_json : json) : pystr :=
  let payload :=
    JObj (<[py "job_json" := job_json]>
           (<[py "resume_json" := resume_json]>
             (<[py "fit_score" := JInt fit_score]> ∅))) in
  prompt_template
    ++ [10; 10]
    ++ py "### INPUT" ++ [10]
    ++ json_dumps payload
    ++ [10; 10]
    ++ py "### OUTPUT (JSON only)" ++ [10].

Definition safe_parse_json (text : pystr) : res json :=
  let text := strip text in
  json_loads text.

Definition run_one (job_path resume_path : pystr) (fit_score : Z) : res json :=
  prompt_template ← load_prompt;
  resume_text ← read_text resume_path;
  resume_json ← json_loads resume_text;
  job_text ← read_text job_path;
  job_json ← json_loads job_text;
  let message := build_message prompt_template fit_score resume_json job_json in
  raw ← call_llm message;
  result ← safe_parse_json raw;
  (* Enforce fit_score unchanged *)
  result ← setitem result (py "fit_score") (JInt fit_score);
  mret result.

End LlmReasoning.

(** ** [main] of [llm_reasoning.py] *)

Definition SLASH : N := 47.   (* "/" *)
Definition DOT : N := 46.     (* "." *)

Definition SAMPLES_DIR : pystr := py "samples".
Definition OUT_DIR : pystr := py "outputs".

(** [dir / name], for a relative [dir] and a one-component [name]. *)
Definition path_join (dir name : pystr) : pystr := dir ++ [SLASH] ++ name.

(** [p.split("/")] *)
Fixpoint path_components (p : pystr) : list (list N) :=
  match p with
  | [] => [[]]
  | c :: r =>
      if c =? SLASH then [] :: path_components r
      else
        match path_components r with
        | comp :: rest => (c :: comp) :: rest
        | [] => [[c]]
        end
  end.

(** [Path.name] of a POSIX path: its last component, where empty
    components and [.] do not count (so a separator at the end is
    dropped); the empty string when there is none. *)
Definition path_name (p : pystr) : pystr :=
  default [] (last (filter (λ comp, comp ≠ [] ∧ comp ≠ [DOT]) (path_components p))).

(** [s.rfind(x)] for one character, [None] for [-1]. *)
Fixpoint rfind (x : N) (s : pystr) : option nat :=
  match s with
  | [] => None
  | c :: r =>
      match rfind x r with
      | Some i => Some (S i)
      | None => if c =? x then Some O else None
      end
  end.

(** [Path.stem]: the name without its last suffix (as [pathlib] has it up
    to Python 3.12; later versions differ for a name that ends in a dot). *)
Definition path_stem (p : pystr) : pystr :=
  let name := path_name p in
  match rfind DOT name with
  | Some i =>
      if bool_decide (0 < i < length name - 1)%nat then take i name else name
  | None => name
  end.

(** What [main] of [llm_reasoning.py] does to the outside. *)
Inductive adapter_event :=
  | WriteText (path content : pystr)
  | PrintSaved (path : pystr).

Section LlmReasoningMain.

Variable read_text : pystr → res pystr.
Variable json_loads : pystr → res json.
Variable json_dumps : json → pystr.
Variable call_llm : pystr → res pystr.

(** The [for] loop of [main]: an exception of [run_one] ends it, and
    leaves what was written before. *)
Fixpoint reasoning_loop (resume_path : pystr) (jobs : list (pystr * Z))
    : list adapter_event * option exn :=
  match jobs with
  | [] => ([], None)
  | (job_path, score) :: rest =>
      match run_one read_text json_loads json_dumps call_llm job_path resume_path score with
      | Raise e => ([], Some e)
      | Ok result =>
          let out_path :=
            path_join OUT_DIR (py "reasoning_" ++ path_stem job_path ++ py ".json") in
          let '(log, outcome) := reasoning_loop resume_path rest in
          (WriteText out_path (json_dumps result) :: PrintSaved out_path :: log, outcome)
      end
  end.

Definition reasoning_jobs : list (pystr * Z) :=
  [ (path_join SAMPLES_DIR (py "job_1.json"), 82%Z);
    (path_join SAMPLES_DIR (py "job_2.json"), 64%Z);
    (path_join SAMPLES_DIR (py "job_3.json"), 45%Z) ].

(** [main] of [llm_reasoning.py]. *)
Definition reasoning_main : list adapter_event * option exn :=
  let resume_path := path_join SAMPLES_DIR (py "resume_1.json") in
  reasoning_loop resume_path reasoning_jobs.

End LlmReasoningMain.

(** ** Sample data *)

(** A stand-in for [repr] on strings that need no escaping. *)
Definition sample_repr (s : pystr) : pystr := py "'" ++ s ++ py "'".

Definition long_text : pystr :=
  py "Build <b>APIs</b> using C++ and Node.js. Visit https://example.com for info. We offer remote work, learning budget and more.".

(** Three postings: the second repeats the first, the third is too short. *)
Definition sample_df : DataFrame :=
  {| df_columns := [py " job_id"; py "title "; py "description"; py "location"];
     df_rows :=
       [ [VInt 1; VStr (py "Data  Analyst"); VStr long_text; VStr (py "Remote")];
         [VInt 2; VStr (py "Data Analyst"); VStr long_text; VStr (py " Remote")];
         [VInt 3; VStr (py "Intern"); VStr (py "Too short."); VNaN] ] |}.

Definition sample_out : list Row :=
  Eval vm_compute in
    drop_duplicates (quality_filter (clean_row <$>
      [ {| raw_job_id := VInt 1; raw_title := VStr (py "Data  Analyst");
           raw_company_id := VStr []; raw_location := VStr (py "Remote");
           raw_description := VStr long_text; raw_work_type := VStr [];
           raw_remote_allowed := VStr []; raw_experience_level := VStr [];
           raw_job_posting_url := VStr [] |} ])).

(** A table without the [description] column. *)
Definition sample_df_no_description : DataFrame :=
  {| df_columns := [py "job_id"; py "title"];
     df_rows := [ [VInt 1; VStr (py "Data Analyst")] ] |}.

(** A run of the adapter: the files hold [{}], and the provider answers
    with a score of its own and one more field. *)
Definition sample_read_text (path : pystr) : res pystr := Ok (py "{}").

Definition sample_reply_fields : gmap pystr json :=
  <[py "fit_score" := JInt 3]> (<[py "summary" := JStr (py "good match")]> ∅).

Definition sample_json_loads (text : pystr) : res json :=
  if decide (text = py "{}") then Ok (JObj ∅)
  else if decide (text = py "reply") then Ok (JObj sample_reply_fields)
  else Raise JSONDecodeError.

Definition sample_json_dumps (j : json) : pystr := py "{...}".

Definition sample_call_llm (message : pystr) : res pystr := Ok (py " reply ").

(** A provider whose reply is valid JSON, but a list. *)
Definition sample_json_loads_list (text : pystr) : res json :=
  if decide (text = py "reply") then Ok (JArr []) else Ok (JObj ∅).

(** A raw row with a short description. *)
Definition sample_short_raw : RawRow :=
  {| raw_job_id := VInt 3; raw_title := VStr (py "Intern");
     raw_company_id := VStr []; raw_location := VNaN;
     raw_description := VStr (py "Too short."); raw_work_type := VStr [];
     raw_remote_allowed := VNaN; raw_experience_level := VStr [];
     raw_job_posting_url := VStr [] |}.

(** The raw row of the first sample posting, and the row saved for it. *)
Definition sample_long_raw : RawRow :=
  {| raw_job_id := VInt 1; raw_title := VStr (py "Data  Analyst");
     raw_company_id := VStr []; raw_location := VStr (py "Remote");
     raw_description := VStr long_text; raw_work_type := VStr [];
     raw_remote_allowed := VStr []; raw_experience_level := VStr [];
     raw_job_posting_url := VStr [] |}.

Definition sample_row : Row := Eval vm_compute in clean_row sample_long_raw.

(** ** Predicates the properties are stated with *)

(** The row passes step 6. *)
Definition long_enough (r : Row) : Prop :=
  ¬ (description r = [] ∨ (Z.of_nat (length (description r)) < 80)%Z).

(** The characters of [s] that are not whitespace, in order. *)
Definition solid (s : list N) : list N := filter (λ c, is_space c = false) s.

(** No whitespace at either end of [s]. *)
Definition trimmed (s : pystr) : Prop := space_run s = O ∧ rstrip s = s.

(** What the allow-list substitution does to one character. *)
Definition keep_or_space (c : N) : N := if desc_allowed c then c else SPACE.

(** The pattern [m] has no match at any position of [s]. *)
Fixpoint no_match (m : matcher) (s : pystr) : Prop :=
  match s with
  | [] => True
  | c :: r => m (c :: r) = None ∧ no_match m r
  end.

(** The only whitespace of [s] is single spaces. *)
Fixpoint spaced (s : pystr) : Prop :=
  match s with
  | [] => True
  | c :: r => (is_space c = true → c = SPACE ∧ space_run r = O) ∧ spaced r
  end.

(** A [<] placed before [r] starts no tag: [r] has no [>], or begins with it. *)
Definition no_tag_before (r : pystr) : Prop := upto_gt r = None ∨ upto_gt r = Some O.

(** The leading run of non-whitespace characters. *)
Definition token (s : pystr) : pystr := take (nonspace_run s) s.

Definition url_prefixes : list pystr := [py "http://"; py "https://"; py "www."].

(** A URL token starts at the beginning of [s]: one of the three
    prefixes, then a character that is not whitespace. *)
Definition url_start (s : pystr) : Prop :=
  ∃ lit c r, lit ∈ url_prefixes ∧ s = lit ++ c :: r ∧ is_space c = false.

(** [u] occurs in [s] as a contiguous piece. *)
Definition occurs_in (u s : pystr) : Prop := ∃ a b, s = a ++ u ++ b.

(** [u] is, as a whole, a tag in the sense of [_HTML]. *)
Definition is_tag (u : pystr) : Prop := m_html u = Some (length u).

(** [u] is, as a whole, a URL token in the sense of [_URLS]. *)
Definition is_url (u : pystr) : Prop := m_url u = Some (length u).

(** * Properties *)

(** ** Examples from the specification *)

Example clean_text_ex :
  clean_text (VStr (py "  Senior  <b>Engineer</b> ")) = py "Senior Engineer".
Proof. vm_compute. reflexivity. Qed.

Example clean_description_ex :
  clean_description
    (VStr (py "<p>Build <b>APIs</b> using C++ and Node.js. Visit https://example.com for info. "))
  = py "Build APIs using C++ and Node.js. Visit for info.".
Proof. vm_compute. reflexivity. Qed.

Example py_str_int_ex : py_str (VInt (-42)) = py "-42".
Proof. reflexivity. Qed.

(** ** The scan of [re.sub] *)

Lemma re_sub_from_drop m repl k s :
  re_sub_from m repl k s = re_sub m repl (drop k s).
Proof.
  revert k. induction s as [|c r IH]; intros [|k]; simpl; try reflexivity.
  apply IH.
Qed.

Lemma re_sub_cons m repl c r :
  re_sub m repl (c :: r) =
    match m (c :: r) with
    | Some (S k) => repl ++ re_sub m repl (drop k r)
    | _ => c :: re_sub m repl r
    end.
Proof.
  unfold re_sub at 1. simpl.
  destruct (m (c :: r)) as [[|k]|]; try reflexivity.
  by rewrite re_sub_from_drop.
Qed.

Lemma re_sub_hit m repl c r k :
  m (c :: r) = Some (S k) →
  re_sub m repl (c :: r) = repl ++ re_sub m repl (drop k r).
Proof. intros H. by rewrite re_sub_cons, H. Qed.

Lemma re_sub_miss m repl c r :
  m (c :: r) = None ∨ m (c :: r) = Some O →
  re_sub m repl (c :: r) = c :: re_sub m repl r.
Proof. intros [H|H]; by rewrite re_sub_cons, H. Qed.

(** Induction along the scan: a match is replaced and the scan resumes
    after it, or the character is kept. *)
Lemma re_sub_scan_ind (m : matcher) (repl : pystr) (P : pystr → pystr → Prop) :
  P [] [] →
  (∀ c r k, m (c :: r) = Some (S k) →
     P (drop k r) (re_sub m repl (drop k r)) →
     P (c :: r) (repl ++ re_sub m repl (drop k r))) →
  (∀ c r, m (c :: r) = None ∨ m (c :: r) = Some O →
     P r (re_sub m repl r) →
     P (c :: r) (c :: re_sub m repl r)) →
  ∀ s, P s (re_sub m repl s).
Proof.
  intros Hnil Hhit Hmiss s.
  remember (length s) as n eqn:Hn.
  revert s Hn. induction n as [n IH] using lt_wf_ind. intros s Hn.
  destruct s as [|c r]; [exact Hnil|].
  destruct (m (c :: r)) as [[|k]|] eqn:Hm.
  - rewrite re_sub_miss by auto. apply Hmiss; [auto|].
    apply (IH (length r)); simpl in Hn; [lia|reflexivity].
  - rewrite (re_sub_hit _ _ _ _ _ Hm). apply Hhit; [done|].
    apply (IH (length (drop k r))); [|reflexivity].
    rewrite length_drop. simpl in Hn. lia.
  - rewrite re_sub_miss by auto. apply Hmiss; [auto|].
    apply (IH (length r)); simpl in Hn; [lia|reflexivity].
Qed.

(** Every character of the result is a character the scan kept, or comes
    from the replacement. *)
Lemma re_sub_Forall (m : matcher) (repl : pystr) (P Q : N → Prop) s :
  Forall Q repl →
  (∀ c r, P c → (m (c :: r) = None ∨ m (c :: r) = Some O) → Q c) →
  Forall P s → Forall Q (re_sub m repl s).
Proof.
  intros Hrepl Hkeep. revert s.
  apply (re_sub_scan_ind m repl (λ s t, Forall P s → Forall Q t)).
  - constructor.
  - intros c r k _ IH Hs. apply Forall_app. split; [done|].
    apply IH. apply Forall_drop. by inversion Hs.
  - intros c r Hm IH Hs. inversion Hs; subst. constructor; eauto.
Qed.

(** ** Whitespace runs and [strip] *)

Lemma space_run_lstrip s : space_run (lstrip s) = O.
Proof.
  unfold lstrip. induction s as [|c r IH]; simpl; [done|].
  destruct (is_space c) eqn:Hc; simpl; [done|]. by rewrite Hc.
Qed.

Lemma lstrip_id s : space_run s = O → lstrip s = s.
Proof. unfold lstrip. by intros ->. Qed.

Lemma rstrip_cons c r :
  rstrip (c :: r) = [] ∧ is_space c = true ∧ rstrip r = []
  ∨ rstrip (c :: r) = c :: rstrip r.
Proof.
  simpl. destruct (rstrip r) eqn:Hr; [|by right].
  destruct (is_space c); [by left | by right].
Qed.

(** [rstrip] removes a suffix made of whitespace. *)
Lemma rstrip_split s :
  ∃ ws, s = rstrip s ++ ws ∧ Forall (λ c, is_space c = true) ws.
Proof.
  induction s as [|c r (ws & Hr & Hws)]; [by exists []|].
  destruct (rstrip_cons c r) as [(-> & Hc & Hnil)| ->].
  - exists (c :: ws). rewrite Hnil in Hr. simpl in *. split; [by f_equal|].
    by constructor.
  - exists ws. simpl. split; [by f_equal|done].
Qed.

Lemma rstrip_idemp s : rstrip (rstrip s) = rstrip s.
Proof.
  induction s as [|c r IH]; [done|].
  destruct (rstrip_cons c r) as [(-> & _ & _)| Hc]; [done|].
  rewrite Hc. simpl. rewrite IH.
  simpl in Hc. destruct (rstrip r) eqn:Hr; [|done].
  destruct (is_space c); [discriminate|done].
Qed.

Lemma space_run_rstrip s : space_run s = O → space_run (rstrip s) = O.
Proof.
  destruct s as [|c r]; [done|]. simpl.
  destruct (is_space c) eqn:Hc; [done|]. intros _.
  destruct (rstrip r); simpl; by rewrite Hc.
Qed.

Lemma strip_idemp s : strip (strip s) = strip s.
Proof.
  unfold strip.
  rewrite (lstrip_id (rstrip (lstrip s))).
  - apply rstrip_idemp.
  - apply space_run_rstrip, space_run_lstrip.
Qed.

Lemma Forall_rstrip (P : N → Prop) s : Forall P s → Forall P (rstrip s).
Proof.
  intros H. destruct (rstrip_split s) as (ws & Hs & _).
  rewrite Hs in H. by apply Forall_app in H as [? _].
Qed.

Lemma Forall_strip (P : N → Prop) s : Forall P s → Forall P (strip s).
Proof. intros H. apply Forall_rstrip. unfold lstrip. by apply Forall_drop. Qed.

(** ** The allow-list filter *)

Lemma re_sub_disallowed_map s :
  re_sub m_disallowed [SPACE] s = keep_or_space <$> s.
Proof.
  induction s as [|c r IH]; [done|].
  rewrite re_sub_cons, fmap_cons, <- IH. unfold m_disallowed, keep_or_space.
  by destruct (desc_allowed c).
Qed.

Lemma desc_allowed_keep c : desc_allowed (keep_or_space c) = true.
Proof. unfold keep_or_space. by destruct (desc_allowed c) eqn:H. Qed.

Lemma is_tech_punct_elem c : is_tech_punct c = true → c ∈ py "+#.-/%():,".
Proof.
  unfold is_tech_punct. rewrite !orb_true_iff, !N.eqb_eq.
  intros H. apply list_elem_of_In. vm_compute py. simpl.
  repeat (destruct H as [H|H]; [|rewrite H; tauto]). rewrite H; tauto.
Qed.

Lemma Forall_collapse (P : N → Prop) s :
  P SPACE → Forall P s → Forall P (re_sub m_space [SPACE] s).
Proof.
  intros Hsp. apply (re_sub_Forall _ _ P P); [by constructor|auto].
Qed.

Lemma clean_description_allowed v :
  Forall (λ c, desc_allowed c = true) (clean_description v).
Proof.
  unfold clean_description. destruct (pd_isna v); [constructor|].
  apply Forall_strip, Forall_collapse; [done|].
  rewrite re_sub_disallowed_map. apply Forall_fmap, Forall_true.
  intros c. apply desc_allowed_keep.
Qed.

(** C1. Every character of the output of [clean_description] is an ASCII
    letter, an ASCII digit, whitespace or one of [+ # . - / % ( ) : ,]; the
    allow-list step turns every other character into a space, and it runs
    before whitespace is collapsed. *)
Theorem clean_description_allow_list v :
  Forall (λ c, is_ascii_letter c = true ∨ is_ascii_digit c = true ∨
               is_space c = true ∨ c ∈ py "+#.-/%():,")
         (clean_description v)
  ∧ (∀ s, py_str v = s → pd_isna v = false →
       clean_description v =
         strip (re_sub m_space [SPACE]
           (keep_or_space <$>
              re_sub m_url [SPACE] (re_sub m_html [SPACE] (str_replace NBSP SPACE s))))).
Proof.
  split.
  - eapply Forall_impl; [apply clean_description_allowed|].
    intros c. unfold desc_allowed. rewrite !orb_true_iff.
    intros [[[?|?]|?]|?]; auto using is_tech_punct_elem.
  - intros s <- Hna. unfold clean_description. rewrite Hna.
    by rewrite re_sub_disallowed_map.
Qed.

Lemma clean_description_allow_list_witness :
  clean_description (VStr (py "C++ & <i>C#</i>"))
  = strip (re_sub m_space [SPACE]
      (keep_or_space <$>
         re_sub m_url [SPACE]
           (re_sub m_html [SPACE] (str_replace NBSP SPACE (py "C++ & <i>C#</i>"))))).
Proof.
  apply (proj2 (clean_description_allow_list (VStr (py "C++ & <i>C#</i>"))));
    reflexivity.
Defined.

(** ** Whitespace collapsing *)

Lemma m_space_hit c r k :
  m_space (c :: r) = Some (S k) → is_space c = true ∧ k = space_run r.
Proof.
  unfold m_space. simpl. destruct (is_space c); [|done].
  intros [= <-]. done.
Qed.

Lemma m_space_miss c r :
  m_space (c :: r) = None ∨ m_space (c :: r) = Some O → is_space c = false.
Proof. unfold m_space. simpl. destruct (is_space c); [|done]. by intros [|]. Qed.

Lemma space_run_drop s : space_run (drop (space_run s) s) = O.
Proof. apply space_run_lstrip. Qed.

Lemma space_run_collapse s :
  space_run s = O → space_run (re_sub m_space [SPACE] s) = O.
Proof.
  destruct s as [|c r]; [done|]. simpl.
  destruct (is_space c) eqn:Hc; [done|]. intros _.
  rewrite re_sub_miss; [simpl; by rewrite Hc|].
  left. unfold m_space. simpl. by rewrite Hc.
Qed.

Lemma spaced_collapse s : spaced (re_sub m_space [SPACE] s).
Proof.
  apply (re_sub_scan_ind m_space [SPACE] (λ _ t, spaced t)); [done|..].
  - intros c r k [_ ->]%m_space_hit IH. simpl. split; [|done].
    intros _. split; [done|]. apply space_run_collapse, space_run_drop.
  - intros c r Hc%m_space_miss IH. simpl. split; [|done]. congruence.
Qed.

Lemma spaced_drop k s : spaced s → spaced (drop k s).
Proof.
  revert k. induction s as [|c r IH]; intros [|k]; simpl; try done.
  intros [_ ?]. by apply IH.
Qed.

Lemma spaced_rstrip s : spaced s → spaced (rstrip s).
Proof.
  induction s as [|c r IH]; [done|]. intros [Hc Hr].
  destruct (rstrip_cons c r) as [(-> & _ & _)| ->]; [done|].
  simpl. split; [|auto]. intros [-> H0]%Hc. split; [done|].
  by apply space_run_rstrip.
Qed.

Lemma spaced_strip s : spaced s → spaced (strip s).
Proof. intros H. by apply spaced_rstrip, spaced_drop. Qed.

Lemma collapse_spaced s : spaced s → re_sub m_space [SPACE] s = s.
Proof.
  induction s as [|c r IH]; [done|]. intros [Hc Hr].
  destruct (is_space c) eqn:Hsp.
  - destruct (Hc eq_refl) as [-> H0].
    rewrite (re_sub_hit _ _ _ _ O).
    + simpl. f_equal. by apply IH.
    + unfold m_space. simpl. by rewrite H0.
  - rewrite re_sub_miss; [f_equal; by apply IH|].
    left. unfold m_space. simpl. by rewrite Hsp.
Qed.

Lemma spaced_only_space s :
  spaced s → Forall (λ c, is_space c = true → c = SPACE) s.
Proof.
  induction s as [|c r IH]; [constructor|]. intros [Hc Hr].
  constructor; [|auto]. intros H. by apply Hc.
Qed.

Lemma str_replace_nbsp_spaced s : spaced s → str_replace NBSP SPACE s = s.
Proof.
  intros H%spaced_only_space. unfold str_replace.
  induction H as [|c r Hc _ IH]; [done|]. simpl. rewrite IH. f_equal.
  destruct (c =? NBSP) eqn:E; [|done].
  apply N.eqb_eq in E. subst c. by specialize (Hc eq_refl).
Qed.

(** The last two steps of both cleaners, applied to their own result,
    change nothing. *)
Lemma collapse_strip_fixed s :
  let w := strip (re_sub m_space [SPACE] s) in
  spaced w ∧ strip (re_sub m_space [SPACE] w) = w.
Proof.
  intros w. assert (spaced w) as Hw by apply spaced_strip, spaced_collapse.
  split; [done|]. rewrite collapse_spaced by done. apply strip_idemp.
Qed.

(** ** Strings without a match *)

Lemma re_sub_fixed m repl s : no_match m s → re_sub m repl s = s.
Proof.
  induction s as [|c r IH]; [done|]. intros [Hc Hr].
  rewrite re_sub_miss by auto. f_equal. by apply IH.
Qed.

Lemma no_match_drop m k s : no_match m s → no_match m (drop k s).
Proof.
  revert k. induction s as [|c r IH]; intros [|k]; simpl; try done.
  intros [_ ?]. by apply IH.
Qed.

Lemma no_match_app m a b : no_match m (a ++ b) → no_match m b.
Proof. induction a as [|c a IH]; simpl; [done|]. intros [_ ?]. auto. Qed.

(** ** Tags *)

Lemma upto_gt_None s : upto_gt s = None ↔ Forall (λ c, c ≠ GT) s.
Proof.
  induction s as [|c r IH]; simpl; [split; [constructor|done]|].
  destruct (c =? GT) eqn:E.
  - apply N.eqb_eq in E. split; [done|]. by inversion 1.
  - apply N.eqb_neq in E. rewrite Forall_cons, <- IH.
    destruct (upto_gt r); simpl; split; try done. by intros [_ ?].
Qed.

Lemma upto_gt_zero s : upto_gt s = Some O ↔ ∃ r, s = GT :: r.
Proof.
  destruct s as [|c r]; simpl; [split; [done|by intros [? ?]]|].
  destruct (c =? GT) eqn:E.
  - apply N.eqb_eq in E. subst. split; eauto.
  - apply N.eqb_neq in E. split.
    + by destruct (upto_gt r).
    + intros [? [= ? ?]]. done.
Qed.

Lemma m_html_miss c r :
  m_html (c :: r) = None ∨ m_html (c :: r) = Some O ↔ c ≠ LT ∨ no_tag_before r.
Proof.
  unfold m_html, no_tag_before. destruct (c =? LT) eqn:E.
  - apply N.eqb_eq in E. subst c.
    destruct (upto_gt r) as [[|n]|]; split; try (intros [?|?]; done); auto.
    intros [?|[?|?]]; done.
  - apply N.eqb_neq in E. split; auto.
Qed.

Lemma m_html_None c r : m_html (c :: r) = None ↔ c ≠ LT ∨ no_tag_before r.
Proof.
  rewrite <- m_html_miss. split; [auto|]. intros [?|H]; [done|].
  unfold m_html in H. destruct (c =? LT); [|done].
  by destruct (upto_gt r) as [[|?]|].
Qed.

(** A substitution that keeps every [>] and puts spaces cannot make a tag
    start where none could. *)
Lemma no_tag_before_re_sub (m : matcher) r :
  (∀ r', m (GT :: r') = None ∨ m (GT :: r') = Some O) →
  no_tag_before r → no_tag_before (re_sub m [SPACE] r).
Proof.
  intros Hgt [H|H].
  - left. apply upto_gt_None. apply upto_gt_None in H.
    apply (re_sub_Forall m [SPACE] (λ c, c ≠ GT) (λ c, c ≠ GT)); [|auto|done].
    by constructor.
  - right. apply upto_gt_zero in H as [r' ->]. apply upto_gt_zero.
    rewrite re_sub_miss by apply Hgt. eauto.
Qed.

Lemma no_tag_before_rstrip r : no_tag_before r → no_tag_before (rstrip r).
Proof.
  intros [H|H].
  - left. apply upto_gt_None. apply upto_gt_None in H. by apply Forall_rstrip.
  - right. apply upto_gt_zero in H as [r' ->]. apply upto_gt_zero.
    destruct (rstrip_cons GT r') as [(_ & ? & _)| ->]; [done|eauto].
Qed.

(** After the tags are replaced, no tag is left. *)
Lemma no_tag_after_sub s : no_match m_html (re_sub m_html [SPACE] s).
Proof.
  apply (re_sub_scan_ind m_html [SPACE] (λ _ t, no_match m_html t)); [done|..].
  - intros c r k _ IH. by split.
  - intros c r Hm IH. split; [|done]. apply m_html_None.
    apply m_html_miss in Hm as [?|Hr]; [by left|right].
    apply no_tag_before_re_sub; [|done]. intros r'. by left.
Qed.

Lemma no_tag_collapse s :
  no_match m_html s → no_match m_html (re_sub m_space [SPACE] s).
Proof.
  apply (re_sub_scan_ind m_space [SPACE]
    (λ s t, no_match m_html s → no_match m_html t)); [done|..].
  - intros c r k _ IH [_ Hr]. split; [done|].
    apply IH. by apply no_match_drop.
  - intros c r _ IH [Hc Hr]. split; [|auto]. apply m_html_None.
    apply m_html_None in Hc as [?|Hc]; [by left|right].
    apply no_tag_before_re_sub; [|done]. intros r'. by left.
Qed.

Lemma no_tag_rstrip s : no_match m_html s → no_match m_html (rstrip s).
Proof.
  induction s as [|c r IH]; [done|]. intros [Hc Hr].
  destruct (rstrip_cons c r) as [(-> & _ & _)| ->]; [done|].
  split; [|auto]. apply m_html_None.
  apply m_html_None in Hc as [?|Hc]; [by left|right].
  by apply no_tag_before_rstrip.
Qed.

Lemma no_tag_strip s : no_match m_html s → no_match m_html (strip s).
Proof. intros H. by apply no_tag_rstrip, no_match_drop. Qed.

(** [clean_text] on a string, step by step. *)
Lemma clean_text_str s :
  clean_text (VStr s) =
    strip (re_sub m_space [SPACE] (re_sub m_html [SPACE] (str_replace NBSP SPACE s))).
Proof. reflexivity. Qed.

Lemma clean_text_idempotent v :
  clean_text (VStr (clean_text v)) = clean_text v.
Proof.
  destruct (pd_isna v) eqn:Hna.
  { assert (clean_text v = []) as -> by (unfold clean_text; by rewrite Hna).
    reflexivity. }
  assert (∃ s, clean_text v =
    strip (re_sub m_space [SPACE] (re_sub m_html [SPACE] s))) as [s Hv].
  { unfold clean_text. rewrite Hna. eauto. }
  rewrite clean_text_str, Hv.
  destruct (collapse_strip_fixed (re_sub m_html [SPACE] s)) as [Hsp Hfix].
  rewrite str_replace_nbsp_spaced by done.
  rewrite (re_sub_fixed m_html); [done|].
  apply no_tag_strip, no_tag_collapse, no_tag_after_sub.
Qed.

(** ** URL tokens *)

Lemma lit_rest_Some lit s r : lit_rest lit s = Some r ↔ s = lit ++ r.
Proof.
  revert s. induction lit as [|a lit IH]; intros s; simpl.
  - split; [by intros [= ->] | by intros ->].
  - destruct s as [|c s']; [done|]. destruct (a =? c) eqn:E.
    + apply N.eqb_eq in E. subst. rewrite IH.
      split; [by intros -> | by intros [= ->]].
    + apply N.eqb_neq in E. split; [done|]. by intros [= ? ?].
Qed.

Lemma lit_nonspace_Some lit s :
  is_Some (lit_nonspace lit s) ↔ ∃ c r, s = lit ++ c :: r ∧ is_space c = false.
Proof.
  unfold lit_nonspace. destruct (lit_rest lit s) as [t|] eqn:Ht.
  - apply lit_rest_Some in Ht. subst s. destruct t as [|c t]; simpl.
    + split; [by intros [? ?]|]. intros (c & r & H & _).
      apply app_inv_head in H. done.
    + destruct (is_space c) eqn:Hc.
      * split; [by intros [? ?]|]. intros (c' & r & H & Hc').
        apply app_inv_head in H. congruence.
      * split; [eauto|]. by intros _.
  - split; [by intros [? ?]|]. intros (c & r & H & _).
    apply lit_rest_Some in H. congruence.
Qed.

Lemma lit_nonspace_pos lit s : lit_nonspace lit s ≠ Some O.
Proof.
  unfold lit_nonspace. destruct (lit_rest lit s) as [t|]; [|done].
  destruct (nonspace_run t); [done|]. intros [= H]. lia.
Qed.

Lemma m_url_Some s : is_Some (m_url s) ↔ url_start s.
Proof.
  unfold url_start, url_prefixes. split.
  - intros H. unfold m_url in H.
    destruct (lit_nonspace (py "http://") s) eqn:H1.
    { apply mk_is_Some, lit_nonspace_Some in H1 as (c & r & ? & ?).
      exists (py "http://"), c, r. set_solver. }
    destruct (lit_nonspace (py "https://") s) eqn:H2.
    { apply mk_is_Some, lit_nonspace_Some in H2 as (c & r & ? & ?).
      exists (py "https://"), c, r. set_solver. }
    apply lit_nonspace_Some in H as (c & r & ? & ?).
    exists (py "www."), c, r. set_solver.
  - intros (lit & c & r & Hlit & Hs & Hc).
    assert (is_Some (lit_nonspace lit s)) as Hm by (apply lit_nonspace_Some; eauto).
    unfold m_url.
    destruct (lit_nonspace (py "http://") s) eqn:H1; [done|].
    destruct (lit_nonspace (py "https://") s) eqn:H2; [done|].
    apply elem_of_cons in Hlit as [->|Hlit]; [rewrite H1 in Hm; by destruct Hm|].
    apply elem_of_cons in Hlit as [->|Hlit]; [rewrite H2 in Hm; by destruct Hm|].
    apply list_elem_of_singleton in Hlit as ->. done.
Qed.

Lemma m_url_None s : m_url s = None ↔ ¬ url_start s.
Proof. rewrite <- m_url_Some, eq_None_not_Some. done. Qed.

Lemma m_url_miss s : m_url s = None ∨ m_url s = Some O → ¬ url_start s.
Proof.
  intros [H|H]; [by apply m_url_None|]. exfalso. revert H. unfold m_url.
  pose proof (lit_nonspace_pos (py "http://") s).
  pose proof (lit_nonspace_pos (py "https://") s).
  pose proof (lit_nonspace_pos (py "www.") s).
  destruct (lit_nonspace (py "http://") s); [congruence|].
  destruct (lit_nonspace (py "https://") s); congruence.
Qed.

Lemma url_prefixes_nonspace lit :
  lit ∈ url_prefixes → Forall (λ c, is_space c = false) lit ∧ lit ≠ [].
Proof.
  unfold url_prefixes. rewrite !elem_of_cons, elem_of_nil.
  intros [->|[->|[->|[]]]]; (split; [by repeat constructor|done]).
Qed.

Lemma url_start_app a b : url_start a → url_start (a ++ b).
Proof.
  intros (lit & c & r & ? & -> & ?). exists lit, c, (r ++ b).
  by rewrite <- app_assoc.
Qed.

Lemma url_start_head c s : url_start (c :: s) → is_space c = false.
Proof.
  intros (lit & d & r & [Hns Hne]%url_prefixes_nonspace & Hs & _).
  destruct lit as [|a lit]; [done|]. injection Hs as -> _. by inversion Hns.
Qed.

Lemma token_cons c s :
  token (c :: s) = if is_space c then [] else c :: token s.
Proof. unfold token. simpl. by destruct (is_space c). Qed.

Lemma token_app a b :
  Forall (λ c, is_space c = false) a → token (a ++ b) = a ++ token b.
Proof.
  induction 1 as [|c a Hc _ IH]; [done|].
  rewrite <- app_comm_cons, token_cons, Hc, IH. done.
Qed.

Lemma token_prefix s : token s `prefix_of` s.
Proof. unfold token. apply prefix_take. Qed.

Lemma url_start_token s : url_start s ↔ url_start (token s).
Proof.
  split.
  - intros (lit & c & r & Hlit & -> & Hc). exists lit, c, (token r).
    apply url_prefixes_nonspace in Hlit as Hns. destruct Hns as [Hns _].
    rewrite token_app, token_cons, Hc by done. done.
  - intros H. destruct (token_prefix s) as [b Hb]. rewrite Hb.
    by apply url_start_app.
Qed.

(** A transformation of what follows [c] that can only cut its first
    token short does not make a URL start at [c]. *)
Lemma url_start_cut c t r :
  token t `prefix_of` token r → url_start (c :: t) → url_start (c :: r).
Proof.
  intros [b Hb] H. pose proof (url_start_head _ _ H) as Hc.
  apply url_start_token. rewrite token_cons, Hc, Hb, app_comm_cons.
  apply url_start_app. apply url_start_token in H.
  by rewrite token_cons, Hc in H.
Qed.

Lemma token_collapse s : token (re_sub m_space [SPACE] s) = token s.
Proof.
  induction s as [|c r IH]; [done|].
  destruct (m_space (c :: r)) as [[|k]|] eqn:Hm.
  - rewrite re_sub_miss by auto.
    by rewrite !token_cons, (m_space_miss c r), IH by auto.
  - rewrite (re_sub_hit _ _ _ _ _ Hm). apply m_space_hit in Hm as [Hc _].
    by rewrite token_cons, Hc.
  - rewrite re_sub_miss by auto.
    by rewrite !token_cons, (m_space_miss c r), IH by auto.
Qed.

Lemma token_url_sub s : token (re_sub m_url [SPACE] s) `prefix_of` token s.
Proof.
  induction s as [|c r IH]; [done|].
  rewrite re_sub_cons. destruct (m_url (c :: r)) as [[|k]|].
  - rewrite !token_cons. destruct (is_space c); [done|]. by apply prefix_cons.
  - apply prefix_nil.
  - rewrite !token_cons. destruct (is_space c); [done|]. by apply prefix_cons.
Qed.

Lemma no_url_space s : m_url (SPACE :: s) = None.
Proof. apply m_url_None. by intros ?%url_start_head. Qed.

(** After the URL tokens are replaced, no URL token is left. *)
Lemma no_url_after_sub s : no_match m_url (re_sub m_url [SPACE] s).
Proof.
  apply (re_sub_scan_ind m_url [SPACE] (λ _ t, no_match m_url t)); [done|..].
  - intros c r k _ IH. split; [apply no_url_space|done].
  - intros c r Hm%m_url_miss IH. split; [|done]. apply m_url_None.
    intros H. apply Hm. eapply url_start_cut; [|done]. apply token_url_sub.
Qed.

Lemma keep_or_space_nonspace c :
  is_space (keep_or_space c) = false → keep_or_space c = c.
Proof. unfold keep_or_space. by destruct (desc_allowed c). Qed.

Lemma keep_or_space_fixed s :
  Forall (λ c, desc_allowed c = true) s → keep_or_space <$> s = s.
Proof.
  induction 1 as [|c r Hc _ IH]; [done|].
  rewrite fmap_cons, IH. unfold keep_or_space. by rewrite Hc.
Qed.

Lemma fmap_keep_nonspace_inv l lit :
  Forall (λ c, is_space c = false) lit → keep_or_space <$> l = lit → l = lit.
Proof.
  intros Hns. revert l. induction Hns as [|a lit Ha _ IH]; intros [|c l]; try done.
  rewrite fmap_cons. intros [= Hc Hl]. rewrite <- Hc in Ha.
  apply keep_or_space_nonspace in Ha. rewrite <- Hc, Ha. f_equal. by apply IH.
Qed.

Lemma url_start_keep s : url_start (keep_or_space <$> s) → url_start s.
Proof.
  intros (lit & c & r & Hlit & Hs & Hc).
  apply fmap_app_inv in Hs as (l1 & l2 & H1 & H2 & ->).
  destruct l2 as [|c0 r0]; [done|]. rewrite fmap_cons in H2.
  injection H2 as Hc0 _. rewrite Hc0 in Hc.
  pose proof (keep_or_space_nonspace _ Hc) as Hk. rewrite Hk in Hc.
  symmetry in H1.
  apply fmap_keep_nonspace_inv in H1; [|by apply url_prefixes_nonspace].
  subst l1. by exists lit, c0, r0.
Qed.

Lemma no_url_keep s :
  no_match m_url s → no_match m_url (keep_or_space <$> s).
Proof.
  induction s as [|c r IH]; [done|]. intros [Hc Hr].
  split; [|auto]. apply m_url_None. intros H.
  apply m_url_None in Hc. apply Hc. by apply (url_start_keep (c :: r)).
Qed.

Lemma no_url_collapse s :
  no_match m_url s → no_match m_url (re_sub m_space [SPACE] s).
Proof.
  apply (re_sub_scan_ind m_space [SPACE]
    (λ s t, no_match m_url s → no_match m_url t)); [done|..].
  - intros c r k _ IH [_ Hr]. split; [apply no_url_space|].
    apply IH. by apply no_match_drop.
  - intros c r _ IH [Hc Hr]. split; [|auto]. apply m_url_None. intros H.
    apply m_url_None in Hc. apply Hc. eapply url_start_cut; [|done].
    by rewrite token_collapse.
Qed.

Lemma no_url_rstrip s : no_match m_url s → no_match m_url (rstrip s).
Proof.
  induction s as [|c r IH]; [done|]. intros [Hc Hr].
  destruct (rstrip_cons c r) as [(-> & _ & _)| ->]; [done|].
  split; [|auto]. apply m_url_None. intros H.
  apply m_url_None in Hc. apply Hc.
  destruct (rstrip_split r) as (ws & Hws & _). rewrite Hws, app_comm_cons.
  by apply url_start_app.
Qed.

Lemma no_url_strip s : no_match m_url s → no_match m_url (strip s).
Proof. intros H. by apply no_url_rstrip, no_match_drop. Qed.

(** The output of [clean_description] has no match of [_URLS]. *)
Lemma clean_description_no_url v : no_match m_url (clean_description v).
Proof.
  unfold clean_description. destruct (pd_isna v); [done|].
  apply no_url_strip, no_url_collapse. rewrite re_sub_disallowed_map.
  apply no_url_keep, no_url_after_sub.
Qed.

Lemma no_tag_without_lt s : Forall (λ c, c ≠ LT) s → no_match m_html s.
Proof.
  induction 1 as [|c r Hc _ IH]; [done|]. split; [|done].
  apply m_html_None. by left.
Qed.

Lemma clean_description_no_angle v :
  Forall (λ c, c ≠ LT ∧ c ≠ GT) (clean_description v).
Proof.
  eapply Forall_impl; [apply clean_description_allowed|].
  intros c Hc. split; intros ->; done.
Qed.

(** The output of [clean_description] has no match of [_HTML]. *)
Lemma clean_description_no_tag v : no_match m_html (clean_description v).
Proof.
  apply no_tag_without_lt. eapply Forall_impl; [apply clean_description_no_angle|].
  by intros c [? _].
Qed.

Lemma clean_description_spaced v : spaced (clean_description v).
Proof.
  unfold clean_description. destruct (pd_isna v); [done|].
  apply spaced_strip, spaced_collapse.
Qed.

Lemma clean_description_idempotent v :
  clean_description (VStr (clean_description v)) = clean_description v.
Proof.
  destruct (pd_isna v) eqn:Hna.
  { assert (clean_description v = []) as ->
      by (unfold clean_description; by rewrite Hna).
    reflexivity. }
  pose proof (clean_description_spaced v) as Hsp.
  pose proof (clean_description_no_tag v) as Htag.
  pose proof (clean_description_no_url v) as Hurl.
  pose proof (clean_description_allowed v) as Hall.
  assert (∃ s, clean_description v = strip (re_sub m_space [SPACE] s)) as [s Hv].
  { unfold clean_description. rewrite Hna. eauto. }
  set (w := clean_description v) in *.
  change (clean_description (VStr w)) with
    (strip (re_sub m_space [SPACE] (re_sub m_disallowed [SPACE]
       (re_sub m_url [SPACE] (re_sub m_html [SPACE] (str_replace NBSP SPACE w)))))).
  rewrite str_replace_nbsp_spaced by done.
  rewrite (re_sub_fixed m_html), (re_sub_fixed m_url) by done.
  rewrite re_sub_disallowed_map, keep_or_space_fixed by done.
  rewrite Hv. apply collapse_strip_fixed.
Qed.

(** C5. [clean_text] and [clean_description] are idempotent: applied to
    their own output they return it unchanged, whatever the first input. *)
Theorem cleaners_idempotent v :
  clean_text (VStr (clean_text v)) = clean_text v
  ∧ clean_description (VStr (clean_description v)) = clean_description v.
Proof. split; [apply clean_text_idempotent | apply clean_description_idempotent]. Qed.

Lemma no_match_suffix m s t :
  m [] = None → no_match m s → t `suffix_of` s → m t = None.
Proof.
  intros H0 Hs [a ->]. apply no_match_app in Hs.
  destruct t; [done|]. by destruct Hs.
Qed.

Lemma is_tag_head u : is_tag u → ∃ r, u = LT :: r.
Proof.
  unfold is_tag, m_html. destruct u as [|c r]; [done|].
  destruct (c =? LT) eqn:E; [|done]. apply N.eqb_eq in E. subst. eauto.
Qed.

(** C6. The output of [clean_description] has no match of the tag pattern
    and none of the URL pattern at any position; so no tag [<...>] and
    no URL token ([http://], [https://] or [www.] followed by at least one
    character that is not whitespace, up to the next whitespace) occurs
    in it. *)
Theorem clean_description_no_markup v :
  (∀ t, t `suffix_of` clean_description v → m_html t = None ∧ m_url t = None)
  ∧ (∀ u, is_tag u ∨ is_url u → ¬ occurs_in u (clean_description v)).
Proof.
  split.
  - intros t Ht. split.
    + apply (no_match_suffix m_html (clean_description v));
        [done | apply clean_description_no_tag | done].
    + apply (no_match_suffix m_url (clean_description v));
        [done | apply clean_description_no_url | done].
  - intros u [Hu|Hu] (a & b & Hocc).
    + apply is_tag_head in Hu as [r ->].
      pose proof (clean_description_no_angle v) as H. rewrite Hocc in H.
      apply Forall_app in H as [_ H]. apply Forall_app in H as [H _].
      apply Forall_cons in H as [[H _] _]. done.
    + pose proof (clean_description_no_url v) as H. rewrite Hocc in H.
      apply no_match_app in H.
      assert (url_start (u ++ b)) as Hst.
      { apply url_start_app, m_url_Some. unfold is_url in Hu. by rewrite Hu. }
      apply m_url_Some in Hst as [n Hn].
      destruct u as [|c u]; [done|]. destruct H as [H _].
      simpl in Hn. congruence.
Qed.

Lemma clean_description_no_markup_witness :
  ¬ occurs_in (py "<b>") (clean_description (VStr (py "<b>Go</b> to www.x.io now")))
  ∧ ¬ occurs_in (py "www.x.io") (clean_description (VStr (py "<b>Go</b> to www.x.io now"))).
Proof.
  split.
  - apply (proj2 (clean_description_no_markup _) (py "<b>")). left. reflexivity.
  - apply (proj2 (clean_description_no_markup _) (py "www.x.io")). right. reflexivity.
Defined.

Example clean_description_markup_ex :
  clean_description (VStr (py "<b>Go</b> to www.x.io now")) = py "Go to now".
Proof. vm_compute. reflexivity. Qed.

(** A prefix with nothing after it is no match of [_URLS], and stays. *)
Example clean_description_bare_prefix_ex :
  clean_description (VStr (py "see www.<b>x</b>")) = py "see www. x".
Proof. vm_compute. reflexivity. Qed.

(** ** Null and non-string inputs *)

(** C4, as the specification states it, fails: a number is not a string
    and is not null, and both cleaners return its digits. *)
Lemma cleaners_non_string_counterexample :
  (∀ s, VInt 42 ≠ VStr s)
  ∧ clean_text (VInt 42) = py "42"
  ∧ clean_description (VInt 42) = py "42"
  ∧ py "42" ≠ [].
Proof. repeat split; done. Qed.

Lemma str_fails_int max_str_digits v :
  str_fails max_str_digits v = true ↔
    ∃ z, v = VInt z ∧ (0 < max_str_digits)%Z ∧ (10 ^ max_str_digits ≤ Z.abs z)%Z.
Proof.
  destruct v; simpl; try (split; [done | by intros (? & ? & _)]).
  rewrite andb_true_iff, Z.ltb_lt, Z.leb_le. split.
  - intros [? ?]. eauto.
  - by intros (? & [= <-] & ? & ?).
Qed.

(** C4, amended. For a null or absent input ([None], NaN) both cleaners
    return the empty string.  Any other value is first turned into text
    by [str] and cleaned as that string, so the result of a number or a
    boolean is in general not empty.  The call raises only when [str]
    does: on an [int] with more digits than the interpreter's limit for
    the conversion (4300 by default), where it ends with [ValueError]. *)
Theorem cleaners_null_and_non_string max_str_digits v :
  let text := clean_text_call max_str_digits v in
  let desc := clean_description_call max_str_digits v in
  (pd_isna v = true → text = Ok [] ∧ desc = Ok [])
  ∧ (pd_isna v = false → str_fails max_str_digits v = false →
       text = Ok (clean_text (VStr (py_str v)))
       ∧ desc = Ok (clean_description (VStr (py_str v))))
  ∧ (str_fails max_str_digits v = true →
       (∃ z, v = VInt z ∧ (0 < max_str_digits)%Z ∧ (10 ^ max_str_digits ≤ Z.abs z)%Z)
       ∧ text = Raise (int_str_error max_str_digits)
       ∧ desc = Raise (int_str_error max_str_digits))
  ∧ (∀ w, text = Ok w → w = clean_text v)
  ∧ (∀ w, desc = Ok w → w = clean_description v).
Proof.
  intros text desc. unfold text, desc, clean_text_call, clean_description_call, str_call.
  split; [|split; [|split; [|split]]].
  - by intros ->.
  - by intros -> ->.
  - intros H. split; [by apply str_fails_int|].
    assert (pd_isna v = false) as ->
      by (apply str_fails_int in H as (z & -> & _); done).
    by rewrite H.
  - unfold clean_text. destruct (pd_isna v); [by intros w [= <-]|].
    destruct (str_fails max_str_digits v); [done|]. by intros w [= <-].
  - unfold clean_description. destruct (pd_isna v); [by intros w [= <-]|].
    destruct (str_fails max_str_digits v); [done|]. by intros w [= <-].
Qed.

Lemma cleaners_null_and_non_string_witness :
  (clean_text_call 4300 VNaN = Ok [] ∧ clean_description_call 4300 VNaN = Ok [])
  ∧ (clean_text_call 4300 (VBool true) = Ok (clean_text (VStr (py "True")))
     ∧ clean_description_call 4300 (VBool true) = Ok (clean_description (VStr (py "True"))))
  ∧ ((∃ z, VInt (10 ^ 4300) = VInt z ∧ (0 < 4300)%Z ∧ (10 ^ 4300 ≤ Z.abs z)%Z)
     ∧ clean_text_call 4300 (VInt (10 ^ 4300)) = Raise (int_str_error 4300)
     ∧ clean_description_call 4300 (VInt (10 ^ 4300)) = Raise (int_str_error 4300)).
Proof.
  split; [|split].
  - apply (proj1 (cleaners_null_and_non_string 4300 VNaN)). reflexivity.
  - apply (proj1 (proj2 (cleaners_null_and_non_string 4300 (VBool true))));
      reflexivity.
  - apply (proj1 (proj2 (proj2 (cleaners_null_and_non_string 4300 (VInt (10 ^ 4300)))))).
    cbv beta iota delta [str_fails]. apply andb_true_intro. split; [reflexivity|].
    apply Z.leb_le. rewrite Z.abs_eq; [apply Z.le_refl|].
    apply Z.pow_nonneg. discriminate.
Defined.

Example int_str_error_ex :
  int_str_error 4300 =
    ValueError (py "Exceeds the limit (4300 digits) for integer string conversion; use sys.set_int_max_str_digits() to increase the limit").
Proof. reflexivity. Qed.

(** An [int] below the limit, and any [int] when there is no limit. *)
Example clean_text_call_ex :
  clean_text_call 4300 (VInt 42) = Ok (py "42")
  ∧ clean_description_call 4300 (VInt (-7)) = Ok (py "-7")
  ∧ clean_text_call 0 (VInt (10 ^ 12)) = Ok (py "1000000000000")
  ∧ str_fails 3 (VInt 999) = false
  ∧ str_fails 3 (VInt (-1000)) = true.
Proof. vm_compute. done. Qed.

(** ** The quality filter and duplicate removal *)

Lemma quality_filter_keep out :
  quality_filter out =
    filter (λ r, ¬ (description r = [] ∨ (len (description r) < 80)%Z)) out.
Proof.
  unfold quality_filter. rewrite list_filter_filter.
  apply list_filter_iff. intros r. unfold len. split.
  - intros [H1 H2] [H|H]; [done|lia].
  - intros H. split; [lia|]. intros E. apply H. by left.
Qed.

Lemma quality_filter_length out : (len (quality_filter out) ≤ len out)%Z.
Proof.
  rewrite quality_filter_keep. unfold len. apply inj_le, length_filter.
Qed.

Lemma drop_duplicates_from_app seen a b :
  drop_duplicates_from seen (a ++ b) =
    drop_duplicates_from seen a
      ++ drop_duplicates_from (seen ∪ list_to_set (signature <$> a)) b.
Proof.
  revert seen. induction a as [|x a IH]; intros seen; simpl.
  - by rewrite (right_id_L ∅ (∪)).
  - case_decide as Hx; rewrite IH.
    + do 2 f_equal. set_solver.
    + simpl. do 3 f_equal. set_solver.
Qed.

Lemma drop_duplicates_from_sublist seen out :
  drop_duplicates_from seen out `sublist_of` out.
Proof.
  revert seen. induction out as [|x out IH]; intros seen; simpl; [done|].
  case_decide; [apply sublist_cons | apply sublist_skip]; apply IH.
Qed.

Lemma drop_duplicates_from_NoDup seen out :
  NoDup (signature <$> drop_duplicates_from seen out)
  ∧ ∀ r, r ∈ drop_duplicates_from seen out → signature r ∉ seen.
Proof.
  revert seen. induction out as [|x out IH]; intros seen; simpl.
  - split; [constructor|]. intros r []%elem_of_nil.
  - case_decide as Hx; [apply IH|].
    destruct (IH ({[signature x]} ∪ seen)) as [Hnd Hseen]. split.
    + rewrite fmap_cons. apply NoDup_cons. split; [|done].
      intros (r & Hr & Hin)%list_elem_of_fmap. apply Hseen in Hin.
      apply Hin, elem_of_union_l, elem_of_singleton. done.
    + intros r [->|Hin]%elem_of_cons; [done|]. apply Hseen in Hin.
      intros ?. by apply Hin, elem_of_union_r.
Qed.

Lemma drop_duplicates_length out : (len (drop_duplicates out) ≤ len out)%Z.
Proof.
  unfold len. apply inj_le, sublist_length, drop_duplicates_from_sublist.
Qed.

Example drop_duplicates_ex (a b : Row) :
  signature a ≠ signature b → drop_duplicates [a; b; a; b] = [a; b].
Proof.
  intros H. unfold drop_duplicates. simpl.
  repeat (case_decide; try set_solver).
Qed.

(** ** [main] *)

Lemma index_of_elem (c : pystr) (cols : list pystr) : c ∈ cols → ∃ j, index_of c cols = Some j.
Proof.
  induction cols as [|c' cols IH]; [by intros ?%elem_of_nil|].
  intros Hc. simpl. case_decide; [eauto|].
  apply elem_of_cons in Hc as [?|Hc]; [done|].
  destruct (IH Hc) as [j ->]. simpl. eauto.
Qed.

Lemma build_out_present df :
  (∀ c, c ∈ required → c ∈ df_columns df) →
  ∃ raw, build_out df = Ok raw ∧ length raw = length (df_rows df).
Proof.
  intros Hreq. unfold build_out, col_index.
  destruct (index_of_elem (py "job_id") (df_columns df)) as [j1 ->];
    [apply Hreq; unfold required; set_solver|].
  destruct (index_of_elem (py "title") (df_columns df)) as [j2 ->];
    [apply Hreq; unfold required; set_solver|].
  destruct (index_of_elem (py "description") (df_columns df)) as [j3 ->];
    [apply Hreq; unfold required; set_solver|].
  simpl. eexists. split; [reflexivity|]. by rewrite length_fmap.
Qed.

Lemma missing_nil (cols : list pystr) :
  filter (λ c, c ∉ cols) required = [] ↔ ∀ c, c ∈ required → c ∈ cols.
Proof.
  split.
  - intros H c Hc. destruct (decide (c ∈ cols)) as [|Hn]; [done|].
    assert (c ∈ filter (λ c, c ∉ cols) required) as Hin
      by (by apply list_elem_of_filter).
    rewrite H in Hin. by apply elem_of_nil in Hin.
  - intros H. destruct (filter (λ c, c ∉ cols) required) as [|c l] eqn:E; [done|].
    assert (c ∈ filter (λ c, c ∉ cols) required) as Hin
      by (rewrite E; apply elem_of_cons; by left).
    apply list_elem_of_filter in Hin as [Hn Hc]. exfalso. auto.
Qed.

Lemma occurs_in_refl u : occurs_in u u.
Proof. exists [], []. by rewrite app_nil_r. Qed.

Lemma occurs_in_app_l u a b : occurs_in u a → occurs_in u (a ++ b).
Proof. intros (x & y & ->). exists x, (y ++ b). by rewrite <- !app_assoc. Qed.

Lemma occurs_in_app_r u a b : occurs_in u b → occurs_in u (a ++ b).
Proof. intros (x & y & ->). exists (a ++ x), y. by rewrite <- !app_assoc. Qed.

Lemma occurs_in_join (x : pystr) (l : list pystr) :
  x ∈ l → occurs_in x (join_comma l).
Proof.
  induction l as [|y l IH]; [by intros ?%elem_of_nil|].
  intros [->|Hx]%elem_of_cons.
  - destruct l; [apply occurs_in_refl|]. apply occurs_in_app_l, occurs_in_refl.
  - destruct l as [|z l]; [by apply elem_of_nil in Hx|].
    change (join_comma (y :: z :: l)) with (y ++ py ", " ++ join_comma (z :: l)).
    by apply occurs_in_app_r, occurs_in_app_r, IH.
Qed.

Section JobsCleanProperties.

Variable repr_str : pystr → pystr.

(** The two ways [main] ends: the schema error, before anything but
    the first line is printed, or the whole run. *)
Lemma main_cases df0 :
  let cols := strip <$> df_columns df0 in
  let missing := filter (λ c, c ∉ cols) required in
  let log0 := [Printed (py "Raw shape:") [len (df_rows df0); len cols]] in
  (missing ≠ [] ∧
     main repr_str df0 =
       (log0, Some (ValueError (schema_message repr_str missing cols))))
  ∨ (missing = [] ∧ ∃ raw,
       length raw = length (df_rows df0) ∧
       let kept := quality_filter (clean_row <$> raw) in
       let out := drop_duplicates kept in
       main repr_str df0 =
         (log0
            ++ [Printed (py "Dropped empty/too-short descriptions:")
                  [len (clean_row <$> raw) - len kept]%Z]
            ++ [Printed (py "Dropped duplicates:") [len kept - len out]%Z]
            ++ [ToCsv out;
                Printed (py "Clean shape:") [len out; 9%Z];
                Printed (py "Saved to:") [];
                PrintSample (sample_fields <$> take 3 out)], None)).
Proof.
  intros cols missing log0. unfold main. fold cols. simpl. fold missing.
  destruct missing as [|c l] eqn:Hm.
  - right. split; [done|].
    destruct (build_out_present
      {| df_columns := cols; df_rows := df_rows df0 |}) as (raw & -> & Hlen).
    { by apply missing_nil. }
    exists raw. split; [done|]. reflexivity.
  - left. done.
Qed.


Lemma main_success df evs :
  main repr_str df = (evs, None) →
  ∃ raw,
    length raw = length (df_rows df) ∧
    let kept := quality_filter (clean_row <$> raw) in
    let out := drop_duplicates kept in
    evs = [Printed (py "Raw shape:") [len (df_rows df); len (strip <$> df_columns df)];
           Printed (py "Dropped empty/too-short descriptions:")
             [len (clean_row <$> raw) - len kept]%Z;
           Printed (py "Dropped duplicates:") [len kept - len out]%Z;
           ToCsv out;
           Printed (py "Clean shape:") [len out; 9%Z];
           Printed (py "Saved to:") [];
           PrintSample (sample_fields <$> take 3 out)].
Proof.
  intros H. destruct (main_cases df) as [[_ E]|[_ (raw & Hlen & E)]];
    rewrite E in H; [done|].
  exists raw. split; [done|]. simpl. by injection H as <-.
Qed.

Lemma main_written df evs rows :
  main repr_str df = (evs, None) → ToCsv rows ∈ evs →
  ∃ cleaned, rows = drop_duplicates (quality_filter cleaned).
Proof.
  intros (raw & _ & ->)%main_success Hin. exists (clean_row <$> raw).
  rewrite !elem_of_cons, elem_of_nil in Hin.
  destruct Hin as [?|[?|[?|[[= ->]|[?|[?|[?|[]]]]]]]]; done.
Qed.

(** C2. The quality filter drops a row exactly when its cleaned
    description is empty or shorter than 80 characters, and keeps the
    others as they are; so every row [main] saves has a description of
    at least 80 characters. *)
Theorem quality_filter_threshold :
  (∀ out,
     quality_filter out =
       filter (λ r, ¬ (description r = [] ∨ (len (description r) < 80)%Z)) out)
  ∧ (∀ df evs rows,
       main repr_str df = (evs, None) → ToCsv rows ∈ evs →
       Forall (λ r, description r ≠ [] ∧ (80 ≤ len (description r))%Z) rows).
Proof.
  split; [apply quality_filter_keep|].
  intros df evs rows Hmain Hin.
  destruct (main_written _ _ _ Hmain Hin) as [cleaned ->].
  apply Forall_forall. intros r Hr.
  eapply elem_of_sublist in Hr; [|apply drop_duplicates_from_sublist].
  rewrite quality_filter_keep in Hr.
  apply list_elem_of_filter in Hr as [Hr _].
  split; [tauto|]. destruct (decide (80 ≤ len (description r))%Z); [done|].
  exfalso. apply Hr. right. lia.
Qed.

(** C3. Duplicate removal goes through the rows in input order and keeps
    a row exactly when no earlier row has its signature (title, location,
    first 250 characters of the description); the survivors keep their
    order, and no two of them, at different positions, share a signature. *)
Theorem drop_duplicates_first_occurrence :
  (∀ r, signature r = (title r, location r, take 250 (description r)))
  ∧ drop_duplicates [] = []
  ∧ (∀ earlier r,
       drop_duplicates (earlier ++ [r]) =
         drop_duplicates earlier
           ++ (if decide (signature r ∈ signature <$> earlier) then [] else [r]))
  ∧ (∀ out, drop_duplicates out `sublist_of` out)
  ∧ (∀ out i j ri rj,
       drop_duplicates out !! i = Some ri →
       drop_duplicates out !! j = Some rj →
       i ≠ j → signature ri ≠ signature rj)
  ∧ (∀ df evs rows,
       main repr_str df = (evs, None) → ToCsv rows ∈ evs →
       ∃ kept, rows = drop_duplicates kept).
Proof.
  split; [done|]. split; [done|]. split; [|split; [|split]].
  - intros earlier r. unfold drop_duplicates.
    rewrite drop_duplicates_from_app, (left_id_L ∅ (∪)). f_equal. simpl.
    pose proof (elem_of_list_to_set (C := gset (pystr * pystr * pystr))
                  (signature r) (signature <$> earlier)) as Hiff.
    repeat case_decide; try done; exfalso; tauto.
  - intros out. apply drop_duplicates_from_sublist.
  - intros out i j ri rj Hi Hj Hij Hsig.
    destruct (drop_duplicates_from_NoDup ∅ out) as [Hnd _].
    apply Hij. eapply NoDup_lookup; [exact Hnd|..].
    + rewrite list_lookup_fmap. unfold drop_duplicates in Hi. by rewrite Hi.
    + rewrite list_lookup_fmap. unfold drop_duplicates in Hj. rewrite Hj.
      simpl. by rewrite Hsig.
  - intros df evs rows Hmain Hin.
    destruct (main_written _ _ _ Hmain Hin) as [cleaned ->]. eauto.
Qed.

(** C7. When [main] runs to its end, the number of rows it saves is at
    most the number of rows of the input, and the two counts it prints
    (rows dropped as empty or too short, rows dropped as duplicates)
    and the number of saved rows add up to the number of input rows. *)
Theorem main_counts df evs :
  main repr_str df = (evs, None) →
  ∃ ncols dropped_quality dropped_duplicates out rest,
    evs = Printed (py "Raw shape:") [len (df_rows df); ncols]
          :: Printed (py "Dropped empty/too-short descriptions:") [dropped_quality]
          :: Printed (py "Dropped duplicates:") [dropped_duplicates]
          :: ToCsv out :: rest
    ∧ (len out ≤ len (df_rows df))%Z
    ∧ (dropped_quality + dropped_duplicates + len out = len (df_rows df))%Z
    ∧ (0 ≤ dropped_quality)%Z ∧ (0 ≤ dropped_duplicates)%Z.
Proof.
  intros (raw & Hlen & ->)%main_success. do 5 eexists. split; [reflexivity|].
  pose proof (quality_filter_length (clean_row <$> raw)) as H1.
  pose proof (drop_duplicates_length (quality_filter (clean_row <$> raw))) as H2.
  assert (len (clean_row <$> raw) = len (df_rows df)) as H3.
  { unfold len. by rewrite length_fmap, Hlen. }
  lia.
Qed.

Lemma occurs_in_list_repr c l :
  c ∈ l → occurs_in (repr_str c) (list_repr repr_str l).
Proof.
  intros Hc. unfold list_repr.
  apply occurs_in_app_r, occurs_in_app_l, occurs_in_join.
  apply list_elem_of_fmap. eauto.
Qed.

(** C8. When one of [job_id], [title], [description] is not among the
    column names (trimmed of surrounding whitespace), [main] ends with
    the [ValueError] whose message lists the missing columns and the
    columns found, and it saves nothing; when the three are there, it
    raises no such error, and (the labels being pairwise distinct) it runs
    to its end and saves its table. *)
Theorem main_schema_check df :
  let cols := strip <$> df_columns df in
  ((∃ c, c ∈ required ∧ c ∉ cols) →
     ∃ missing msg log,
       main repr_str df = (log, Some (ValueError msg))
       ∧ msg = py "Missing required columns: " ++ list_repr repr_str missing
                 ++ [10] ++ py "Found: " ++ list_repr repr_str cols
       ∧ (∀ c, c ∈ missing ↔ c ∈ required ∧ c ∉ cols)
       ∧ (∀ c, c ∈ missing → occurs_in (repr_str c) msg)
       ∧ (∀ c, c ∈ cols → occurs_in (repr_str c) msg)
       ∧ (∀ rows, ToCsv rows ∉ log))
  ∧ ((∀ c, c ∈ required → c ∈ cols) →
       (∀ missing found,
          (main repr_str df).2 ≠ Some (ValueError (schema_message repr_str missing found)))
       ∧ (NoDup cols →
            (main repr_str df).2 = None ∧ ∃ rows, ToCsv rows ∈ (main repr_str df).1)).
Proof.
  intros cols. split.
  - intros (c & Hreq & Hc).
    destruct (main_cases df) as [[_ E]|[Hnil _]].
    + fold cols in E. do 3 eexists. split; [exact E|]. split; [reflexivity|].
      split; [|split; [|split]].
      * intros c'. rewrite list_elem_of_filter. tauto.
      * intros c' Hc'. apply occurs_in_app_r, occurs_in_app_l.
        by apply occurs_in_list_repr.
      * intros c' Hc'. do 4 apply occurs_in_app_r.
        by apply occurs_in_list_repr.
      * intros rows Hin. apply list_elem_of_singleton in Hin. done.
    + exfalso. apply Hc. by apply (proj1 (missing_nil cols)).
  - intros Hall. destruct (main_cases df) as [[Hne _]|[_ (raw & _ & E)]].
    + exfalso. apply Hne. by apply missing_nil.
    + rewrite E. split; [done|]. intros _. split; [done|]. eexists. simpl.
      do 3 apply list_elem_of_further. apply list_elem_of_here.
Qed.

End JobsCleanProperties.

(** ** The properties at the sample data *)

Example main_sample_ex :
  main sample_repr sample_df =
    ([Printed (py "Raw shape:") [3; 4]%Z;
      Printed (py "Dropped empty/too-short descriptions:") [1%Z];
      Printed (py "Dropped duplicates:") [1%Z];
      ToCsv sample_out;
      Printed (py "Clean shape:") [1; 9]%Z;
      Printed (py "Saved to:") [];
      PrintSample (sample_fields <$> sample_out)], None).
Proof. vm_compute. reflexivity. Qed.

Example main_sample_description_ex :
  description <$> sample_out =
    [py "Build APIs using C++ and Node.js. Visit for info. We offer remote work, learning budget and more."].
Proof. vm_compute. reflexivity. Qed.

Lemma quality_filter_threshold_witness :
  Forall (λ r, description r ≠ [] ∧ (80 ≤ len (description r))%Z) sample_out.
Proof.
  apply (proj2 (quality_filter_threshold sample_repr) sample_df
           (main sample_repr sample_df).1 sample_out).
  - vm_compute. reflexivity.
  - vm_compute. do 3 apply list_elem_of_further. apply list_elem_of_here.
Defined.

Lemma drop_duplicates_first_occurrence_witness :
  let a := {| job_id := VInt 1; title := py "Data Analyst"; company_id := VNaN;
              location := py "Remote"; description := py "x"; work_type := [];
              remote_allowed := VStr []; experience_level := []; job_posting_url := [] |} in
  let b := {| job_id := VInt 2; title := py "Data Engineer"; company_id := VNaN;
              location := py "Remote"; description := py "x"; work_type := [];
              remote_allowed := VStr []; experience_level := []; job_posting_url := [] |} in
  signature a ≠ signature b.
Proof.
  intros a b.
  apply (proj1 (proj2 (proj2 (proj2 (proj2 (drop_duplicates_first_occurrence sample_repr)))))
           [a; a; b] 0%nat 1%nat a b); [reflexivity | reflexivity | lia].
Defined.

Lemma main_counts_witness :
  ∃ ncols dropped_quality dropped_duplicates out rest,
    (main sample_repr sample_df).1
      = Printed (py "Raw shape:") [len (df_rows sample_df); ncols]
        :: Printed (py "Dropped empty/too-short descriptions:") [dropped_quality]
        :: Printed (py "Dropped duplicates:") [dropped_duplicates]
        :: ToCsv out :: rest
    ∧ (len out ≤ len (df_rows sample_df))%Z
    ∧ (dropped_quality + dropped_duplicates + len out = len (df_rows sample_df))%Z
    ∧ (0 ≤ dropped_quality)%Z ∧ (0 ≤ dropped_duplicates)%Z.
Proof.
  apply (main_counts sample_repr sample_df (main sample_repr sample_df).1).
  vm_compute. reflexivity.
Defined.

Example main_no_description_ex :
  main sample_repr sample_df_no_description =
    ([Printed (py "Raw shape:") [1; 2]%Z],
     Some (ValueError
       (py "Missing required columns: ['description']" ++ [10]
          ++ py "Found: ['job_id', 'title']"))).
Proof. vm_compute. reflexivity. Qed.

Lemma main_schema_check_witness :
  (∃ missing msg log,
     main sample_repr sample_df_no_description = (log, Some (ValueError msg))
     ∧ msg = py "Missing required columns: " ++ list_repr sample_repr missing
               ++ [10] ++ py "Found: "
               ++ list_repr sample_repr (strip <$> df_columns sample_df_no_description)
     ∧ (∀ c, c ∈ missing ↔
          c ∈ required ∧ c ∉ strip <$> df_columns sample_df_no_description)
     ∧ (∀ c, c ∈ missing → occurs_in (sample_repr c) msg)
     ∧ (∀ c, c ∈ strip <$> df_columns sample_df_no_description →
          occurs_in (sample_repr c) msg)
     ∧ (∀ rows, ToCsv rows ∉ log))
  ∧ ((main sample_repr sample_df).2 = None
     ∧ ∃ rows, ToCsv rows ∈ (main sample_repr sample_df).1).
Proof.
  split.
  - apply (proj1 (main_schema_check sample_repr sample_df_no_description)).
    exists (py "description"). split.
    + unfold required. do 2 apply list_elem_of_further. apply list_elem_of_here.
    + vm_compute. intros H. apply list_elem_of_In in H. simpl in H.
      destruct H as [H|[H|[]]]; discriminate H.
  - apply (proj2 (main_schema_check sample_repr sample_df)).
    + intros c Hc. apply list_elem_of_In in Hc. apply list_elem_of_In.
      vm_compute in Hc. vm_compute. destruct Hc as [<-|[<-|[<-|[]]]]; tauto.
    + apply (bool_decide_unpack _). vm_compute. reflexivity.
Defined.

(** ** [run_one] *)

Section LlmReasoningProperties.

Variable read_text : pystr → res pystr.
Variable json_loads : pystr → res json.
Variable json_dumps : json → pystr.
Variable call_llm : pystr → res pystr.

(** A run of [run_one] that returns went through every step, and the
    reply parsed to a [dict]. *)
Lemma run_one_returns job_path resume_path fit_score result :
  run_one read_text json_loads json_dumps call_llm job_path resume_path fit_score
    = Ok result →
  ∃ message raw parsed,
    call_llm message = Ok raw
    ∧ safe_parse_json json_loads raw = Ok (JObj parsed)
    ∧ result = JObj (<[py "fit_score" := JInt fit_score]> parsed).
Proof.
  unfold run_one, load_prompt. simpl.
  destruct (read_text PROMPT_PATH) as [prompt|]; simpl; [|done].
  destruct (read_text resume_path) as [resume_text|]; simpl; [|done].
  destruct (json_loads resume_text) as [resume_json|]; simpl; [|done].
  destruct (read_text job_path) as [job_text|]; simpl; [|done].
  destruct (json_loads job_text) as [job_json|]; simpl; [|done].
  destruct (call_llm _) as [raw|] eqn:Hraw; simpl; [|done].
  destruct (safe_parse_json json_loads raw) as [parsed|] eqn:Hparsed; simpl; [|done].
  destruct parsed; simpl; try done.
  intros [= <-]. by eexists _, raw, _.
Qed.

(** C9. Whenever [run_one] returns, what it returns is an object whose
    [fit_score] is the score it was called with, whatever the provider
    answered. *)
Theorem run_one_fit_score job_path resume_path fit_score result :
  run_one read_text json_loads json_dumps call_llm job_path resume_path fit_score
    = Ok result →
  ∃ fields, result = JObj fields ∧ fields !! py "fit_score" = Some (JInt fit_score).
Proof.
  intros (message & raw & parsed & _ & _ & ->)%run_one_returns.
  eexists. split; [reflexivity|]. apply lookup_insert_eq.
Qed.

(** C10. [run_one] changes the parsed reply at [fit_score] only: every
    other key has the value the parse gave it, and the keys of the
    result are those of the parsed reply and [fit_score]. *)
Theorem run_one_frame job_path resume_path fit_score result :
  run_one read_text json_loads json_dumps call_llm job_path resume_path fit_score
    = Ok result →
  ∃ message raw parsed fields,
    call_llm message = Ok raw
    ∧ safe_parse_json json_loads raw = Ok (JObj parsed)
    ∧ result = JObj fields
    ∧ (∀ key, key ≠ py "fit_score" → fields !! key = parsed !! key)
    ∧ dom fields = {[py "fit_score"]} ∪ dom parsed.
Proof.
  intros (message & raw & parsed & Hraw & Hparsed & ->)%run_one_returns.
  exists message, raw, parsed. eexists. do 3 (split; [done|]). split.
  - intros key Hkey. by apply lookup_insert_ne.
  - apply dom_insert_L.
Qed.

End LlmReasoningProperties.

(** With the placeholder of the repository in place of a provider,
    [run_one] raises. *)
Example run_one_placeholder_ex :
  run_one sample_read_text sample_json_loads sample_json_dumps call_llm_placeholder
    (py "samples/job_1.json") (py "samples/resume_1.json") 82
  = Raise NotImplementedError.
Proof. reflexivity. Qed.

Lemma run_one_fit_score_witness :
  ∃ fields,
    JObj (<[py "fit_score" := JInt 82]> sample_reply_fields) = JObj fields
    ∧ fields !! py "fit_score" = Some (JInt 82).
Proof.
  apply (run_one_fit_score sample_read_text sample_json_loads sample_json_dumps
           sample_call_llm (py "samples/job_1.json") (py "samples/resume_1.json") 82).
  reflexivity.
Defined.

Lemma run_one_frame_witness :
  ∃ message raw parsed fields,
    sample_call_llm message = Ok raw
    ∧ safe_parse_json sample_json_loads raw = Ok (JObj parsed)
    ∧ JObj (<[py "fit_score" := JInt 64]> sample_reply_fields) = JObj fields
    ∧ (∀ key, key ≠ py "fit_score" → fields !! key = parsed !! key)
    ∧ dom fields = {[py "fit_score"]} ∪ dom parsed.
Proof.
  apply (run_one_frame sample_read_text sample_json_loads sample_json_dumps
           sample_call_llm (py "samples/job_2.json") (py "samples/resume_1.json") 64).
  reflexivity.
Defined.

(** * Further properties of the code *)

(** ** What the cleaners return *)

Lemma strip_trimmed s : trimmed (strip s).
Proof.
  split.
  - apply space_run_rstrip, space_run_lstrip.
  - apply rstrip_idemp.
Qed.

Lemma rstrip_fixed_tail c r : rstrip (c :: r) = c :: r → rstrip r = r.
Proof.
  destruct (rstrip_cons c r) as [(-> & _ & _)| ->]; [done|]. by intros [= ->].
Qed.

Lemma spaced_trimmed_lookup s i c :
  spaced s → rstrip s = s → s !! i = Some c → is_space c = true →
  c = SPACE ∧ ∃ d, s !! S i = Some d ∧ is_space d = false.
Proof.
  revert i. induction s as [|c0 r IH]; intros [|i] Hsp Hr Hi Hc; try done.
  - injection Hi as ->. destruct Hsp as [Hc0 _].
    destruct (Hc0 Hc) as [-> H0]. split; [done|].
    destruct r as [|d r'].
    + by vm_compute in Hr.
    + exists d. split; [done|]. simpl in H0. by destruct (is_space d).
  - destruct Hsp as [_ Hsp]. apply (IH i); [done| |done|done].
    by apply rstrip_fixed_tail in Hr.
Qed.

Lemma clean_text_spaced v : spaced (clean_text v).
Proof.
  unfold clean_text. destruct (pd_isna v); [done|].
  apply spaced_strip, spaced_collapse.
Qed.

Lemma clean_text_trimmed v : trimmed (clean_text v).
Proof.
  unfold clean_text. destruct (pd_isna v); [done|]. apply strip_trimmed.
Qed.

Lemma clean_description_trimmed v : trimmed (clean_description v).
Proof.
  unfold clean_description. destruct (pd_isna v); [done|]. apply strip_trimmed.
Qed.

(** X1. In what [clean_text] and [clean_description] return, a whitespace
    character is always the ASCII space, is never the first character,
    and is always followed by a character that is not whitespace: no
    non-breaking space, no run of spaces, no space at either end. *)
Theorem cleaners_single_spaces v w i c :
  w = clean_text v ∨ w = clean_description v →
  w !! i = Some c → is_space c = true →
  c = SPACE ∧ (0 < i)%nat ∧ ∃ d, w !! S i = Some d ∧ is_space d = false.
Proof.
  intros Hw Hi Hc.
  assert (spaced w ∧ trimmed w) as [Hsp [H0 Hr]].
  { destruct Hw as [-> | ->].
    - split; [apply clean_text_spaced | apply clean_text_trimmed].
    - split; [apply clean_description_spaced | apply clean_description_trimmed]. }
  destruct (spaced_trimmed_lookup w i c Hsp Hr Hi Hc) as [-> Hd].
  split; [done|]. split; [|done].
  destruct i; [|lia]. destruct w as [|c0 r]; [done|].
  injection Hi as ->. by vm_compute in H0.
Qed.

Lemma cleaners_single_spaces_witness :
  SPACE = SPACE ∧ (0 < 6)%nat
  ∧ ∃ d, clean_text (VStr (py "  Senior  <b>Engineer</b> ")) !! 7%nat = Some d
         ∧ is_space d = false.
Proof.
  apply (cleaners_single_spaces (VStr (py "  Senior  <b>Engineer</b> "))
           (clean_text (VStr (py "  Senior  <b>Engineer</b> "))) 6%nat SPACE);
    [by left | reflexivity | reflexivity].
Defined.

Lemma clean_text_no_tag v : no_match m_html (clean_text v).
Proof.
  unfold clean_text. destruct (pd_isna v); [done|].
  apply no_tag_strip, no_tag_collapse, no_tag_after_sub.
Qed.

Lemma upto_gt_app r b k : upto_gt r = Some k → upto_gt (r ++ b) = Some k.
Proof.
  revert k. induction r as [|c r IH]; intros k; simpl; [done|].
  destruct (c =? GT); [done|].
  destruct (upto_gt r) as [n|]; [|done]. by rewrite (IH n).
Qed.

Lemma is_tag_app u b : is_tag u → m_html (u ++ b) = Some (length u).
Proof.
  unfold is_tag. destruct u as [|c r]; [done|]. simpl.
  destruct (c =? LT); [|done].
  destruct (upto_gt r) as [[|n]|] eqn:E; try done.
  by rewrite (upto_gt_app _ b _ E).
Qed.

(** X2. [clean_text] leaves no tag: its result has no match of
    [<[^>]+>] at any position, and no tag occurs in it.  (Angle brackets
    that form no tag, as in [<>], stay.) *)
Theorem clean_text_no_markup v :
  (∀ t, t `suffix_of` clean_text v → m_html t = None)
  ∧ (∀ u, is_tag u → ¬ occurs_in u (clean_text v)).
Proof.
  split.
  - intros t Ht.
    apply (no_match_suffix m_html (clean_text v)); [done | apply clean_text_no_tag | done].
  - intros u Hu (a & b & Hocc).
    pose proof (clean_text_no_tag v) as H. rewrite Hocc in H.
    apply no_match_app in H. apply (is_tag_app u b) in Hu as Hm.
    destruct u as [|c u]; [done|]. destruct H as [H _].
    simpl in Hm, H. congruence.
Qed.

Lemma clean_text_no_markup_witness :
  ¬ occurs_in (py "</b>") (clean_text (VStr (py "<b>Lead</b> dev"))).
Proof.
  apply (proj2 (clean_text_no_markup (VStr (py "<b>Lead</b> dev")))).
  reflexivity.
Defined.

Example clean_text_angle_ex :
  clean_text (VStr (py "a <> b < c")) = py "a <> b < c".
Proof. vm_compute. reflexivity. Qed.

(** ** Lengths and order of characters *)

Lemma re_sub_length m s : (length (re_sub m [SPACE] s) ≤ length s)%nat.
Proof.
  apply (re_sub_scan_ind m [SPACE] (λ s t, (length t ≤ length s)%nat)); [done|..].
  - intros c r k _ IH. simpl. rewrite length_drop in IH. lia.
  - intros c r _ IH. simpl. lia.
Qed.

Lemma strip_length s : (length (strip s) ≤ length s)%nat.
Proof.
  unfold strip, lstrip.
  destruct (rstrip_split (drop (space_run s) s)) as (ws & H & _).
  apply (f_equal length) in H. rewrite length_app, length_drop in H. lia.
Qed.

Lemma str_replace_length old new s : length (str_replace old new s) = length s.
Proof. apply length_map. Qed.

Lemma cleaners_length v :
  (length (clean_text v) ≤ length (py_str v))%nat
  ∧ (length (clean_description v) ≤ length (py_str v))%nat.
Proof.
  unfold clean_text, clean_description. destruct (pd_isna v); [simpl; lia|].
  pose proof (str_replace_length NBSP SPACE (py_str v)) as H0.
  set (s0 := str_replace NBSP SPACE (py_str v)) in *.
  pose proof (re_sub_length m_html s0) as H1.
  set (s1 := re_sub m_html [SPACE] s0) in *.
  pose proof (re_sub_length m_space s1) as H2.
  pose proof (strip_length (re_sub m_space [SPACE] s1)) as H3.
  pose proof (re_sub_length m_url s1) as H4.
  set (s2 := re_sub m_url [SPACE] s1) in *.
  pose proof (re_sub_length m_disallowed s2) as H5.
  set (s3 := re_sub m_disallowed [SPACE] s2) in *.
  pose proof (re_sub_length m_space s3) as H6.
  pose proof (strip_length (re_sub m_space [SPACE] s3)) as H7.
  lia.
Qed.

(** X3. Neither cleaner returns more characters than [str] of its input
    has: every substitution puts one space for a match of at least one
    character. *)
Theorem cleaners_never_longer v :
  (length (clean_text v) ≤ length (py_str v))%nat
  ∧ (length (clean_description v) ≤ length (py_str v))%nat.
Proof. apply cleaners_length. Qed.

Lemma solid_sublist (l1 l2 : pystr) :
  l1 `sublist_of` l2 → solid l1 `sublist_of` solid l2.
Proof.
  unfold solid. induction 1 as [|x l1 l2 _ IH|x l1 l2 _ IH]; [done|..].
  - rewrite !filter_cons. destruct (decide _); [by apply sublist_skip|done].
  - rewrite filter_cons. destruct (decide _); [by apply sublist_cons|done].
Qed.

Lemma solid_re_sub m s : solid (re_sub m [SPACE] s) `sublist_of` solid s.
Proof.
  apply (re_sub_scan_ind m [SPACE] (λ s t, solid t `sublist_of` solid s)); [done|..].
  - intros c r k _ IH. change ([SPACE] ++ ?t) with (SPACE :: t).
    unfold solid at 1. rewrite filter_cons_False by done.
    etrans; [exact IH|]. apply solid_sublist.
    apply sublist_cons, sublist_drop.
  - intros c r _ IH. unfold solid in *. rewrite !filter_cons.
    destruct (decide _); [by apply sublist_skip|done].
Qed.

Lemma solid_strip s : solid (strip s) `sublist_of` solid s.
Proof.
  apply solid_sublist. unfold strip, lstrip.
  destruct (rstrip_split (drop (space_run s) s)) as (ws & H & _).
  etrans; [|apply (sublist_drop s (space_run s))].
  rewrite H at 2. apply sublist_inserts_r. done.
Qed.

Lemma solid_str_replace s : solid (str_replace NBSP SPACE s) = solid s.
Proof.
  unfold str_replace, solid. induction s as [|c r IH]; [done|]. simpl.
  destruct (c =? NBSP) eqn:E.
  - apply N.eqb_eq in E. subst c.
    rewrite !filter_cons_False by done. exact IH.
  - rewrite !filter_cons. destruct (decide _); by rewrite IH.
Qed.

(** X4. The cleaners bring in no character and change no order: the
    characters of the result that are not whitespace are, in order, among
    those of [str] of the input. *)
Theorem cleaners_keep_order v :
  solid (clean_text v) `sublist_of` py_str v
  ∧ solid (clean_description v) `sublist_of` py_str v.
Proof.
  assert (∀ s : pystr, solid s `sublist_of` s) as Hsolid
    by (intros s; apply sublist_filter).
  assert (solid [] = []) as Hnil by done.
  unfold clean_text, clean_description.
  destruct (pd_isna v); [rewrite Hnil; split; apply sublist_nil_l|].
  split.
  - etrans; [apply solid_strip|]. etrans; [apply solid_re_sub|].
    etrans; [apply solid_re_sub|]. rewrite solid_str_replace. apply Hsolid.
  - etrans; [apply solid_strip|]. do 4 (etrans; [apply solid_re_sub|]).
    rewrite solid_str_replace. apply Hsolid.
Qed.

Example cleaners_keep_order_ex :
  solid (clean_description (VStr (py "C++ & <i>C#</i>"))) = py "C++C#".
Proof. vm_compute. reflexivity. Qed.

(** ** The strings the cleaners leave as they are *)

Lemma strip_fixed s : trimmed s → strip s = s.
Proof. intros [H0 Hr]. unfold strip. by rewrite lstrip_id. Qed.

(** X5. [clean_text] returns a string unchanged exactly when its only
    whitespace is single spaces, it has no whitespace at either end, and
    it has no match of the tag pattern. *)
Theorem clean_text_fixed_points s :
  clean_text (VStr s) = s ↔ spaced s ∧ trimmed s ∧ no_match m_html s.
Proof.
  split.
  - intros H. rewrite <- H.
    split; [apply clean_text_spaced|].
    split; [apply clean_text_trimmed | apply clean_text_no_tag].
  - intros (Hsp & Htr & Htag). rewrite clean_text_str.
    rewrite str_replace_nbsp_spaced, (re_sub_fixed m_html), collapse_spaced by done.
    by apply strip_fixed.
Qed.

Lemma clean_text_fixed_points_witness :
  clean_text (VStr (py "Senior Engineer <> QA")) = py "Senior Engineer <> QA".
Proof.
  apply (proj2 (clean_text_fixed_points (py "Senior Engineer <> QA"))).
  vm_compute. repeat split; (done || (intros; done)).
Defined.

(** X6. [clean_description] returns a string unchanged exactly when, in
    addition, all its characters are on the allow-list and it has no
    match of the URL pattern; so [C++], [C#], [Node.js], [CI/CD] and the
    like come through as they are. *)
Theorem clean_description_fixed_points s :
  clean_description (VStr s) = s ↔
    spaced s ∧ trimmed s ∧ Forall (λ c, desc_allowed c = true) s ∧ no_match m_url s.
Proof.
  split.
  - intros H. rewrite <- H.
    split; [apply clean_description_spaced|].
    split; [apply clean_description_trimmed|].
    split; [apply clean_description_allowed | apply clean_description_no_url].
  - intros (Hsp & Htr & Hall & Hurl).
    change (clean_description (VStr s)) with
      (strip (re_sub m_space [SPACE] (re_sub m_disallowed [SPACE]
         (re_sub m_url [SPACE] (re_sub m_html [SPACE] (str_replace NBSP SPACE s)))))).
    rewrite str_replace_nbsp_spaced by done.
    rewrite (re_sub_fixed m_html).
    + rewrite (re_sub_fixed m_url) by done.
      rewrite re_sub_disallowed_map, keep_or_space_fixed, collapse_spaced by done.
      by apply strip_fixed.
    + apply no_tag_without_lt. eapply Forall_impl; [exact Hall|].
      by intros c Hc ->.
Qed.

Lemma clean_description_fixed_points_witness :
  clean_description (VStr (py "C++, C# and Node.js (CI/CD): 4-10 yrs"))
  = py "C++, C# and Node.js (CI/CD): 4-10 yrs".
Proof.
  apply (proj2 (clean_description_fixed_points (py "C++, C# and Node.js (CI/CD): 4-10 yrs"))).
  split; [|split; [|split]].
  - vm_compute. repeat split; (done || (intros; done)).
  - vm_compute. done.
  - vm_compute. repeat constructor.
  - vm_compute. repeat split.
Defined.

(** ** More on duplicate removal and the quality filter *)

Lemma drop_duplicates_from_fixed seen out :
  NoDup (signature <$> out) → (∀ r, r ∈ out → signature r ∉ seen) →
  drop_duplicates_from seen out = out.
Proof.
  revert seen. induction out as [|x out IH]; intros seen Hnd Hseen; [done|].
  rewrite fmap_cons in Hnd. apply NoDup_cons in Hnd as [Hx Hnd]. simpl.
  case_decide as Hin.
  - exfalso. apply (Hseen x); [apply list_elem_of_here|done].
  - f_equal. apply IH; [done|]. intros r Hr [Hs%elem_of_singleton|?]%elem_of_union.
    + apply Hx. rewrite <- Hs. apply list_elem_of_fmap. eauto.
    + apply (Hseen r); [by apply list_elem_of_further|done].
Qed.

Lemma drop_duplicates_from_covers seen out r :
  r ∈ out →
  signature r ∈ seen ∨ signature r ∈ signature <$> drop_duplicates_from seen out.
Proof.
  revert seen. induction out as [|x out IH]; intros seen; [by intros ?%elem_of_nil|].
  intros [->|Hr]%elem_of_cons; simpl.
  - case_decide; [by left|right]. rewrite fmap_cons. apply list_elem_of_here.
  - case_decide as Hx; [by apply IH|].
    destruct (IH ({[signature x]} ∪ seen) Hr) as [[Hs%elem_of_singleton|?]%elem_of_union|?].
    + right. rewrite fmap_cons, Hs. apply list_elem_of_here.
    + by left.
    + right. rewrite fmap_cons. by apply list_elem_of_further.
Qed.

(** X7. Duplicate removal loses no signature, brings in none, and on its
    own result changes nothing. *)
Theorem drop_duplicates_signatures out :
  (∀ sig, sig ∈ signature <$> drop_duplicates out ↔ sig ∈ signature <$> out)
  ∧ drop_duplicates (drop_duplicates out) = drop_duplicates out.
Proof.
  split.
  - intros sig. split.
    + intros (r & -> & Hr)%list_elem_of_fmap. apply list_elem_of_fmap.
      exists r. split; [done|].
      eapply elem_of_sublist; [exact Hr | apply drop_duplicates_from_sublist].
    + intros (r & -> & Hr)%list_elem_of_fmap.
      destruct (drop_duplicates_from_covers ∅ out r Hr) as [H|H]; [|done].
      by apply elem_of_empty in H.
  - destruct (drop_duplicates_from_NoDup ∅ out) as [Hnd _].
    apply drop_duplicates_from_fixed; [done|]. intros r _ H.
    by apply elem_of_empty in H.
Qed.

Lemma drop_duplicates_from_seen_ext seen1 seen2 out :
  (∀ r, r ∈ out → signature r ∈ seen1 ↔ signature r ∈ seen2) →
  drop_duplicates_from seen1 out = drop_duplicates_from seen2 out.
Proof.
  revert seen1 seen2. induction out as [|x out IH]; intros seen1 seen2 H; [done|].
  simpl. pose proof (H x (list_elem_of_here _ _)) as Hx.
  repeat case_decide; try tauto.
  - apply IH. intros r Hr. apply H. by apply list_elem_of_further.
  - f_equal. apply IH. intros r Hr. rewrite !elem_of_union.
    pose proof (H r (list_elem_of_further _ _ _ Hr)). tauto.
Qed.

(** A filter that cannot tell two rows of one signature apart can be
    applied before duplicate removal or after it. *)
Lemma drop_duplicates_from_filter (P : Row → Prop) `{∀ r, Decision (P r)} seen out :
  (∀ a b, signature a = signature b → P a → P b) →
  drop_duplicates_from seen (filter P out) = filter P (drop_duplicates_from seen out).
Proof.
  intros HP. revert seen. induction out as [|x out IH]; intros seen; [done|].
  rewrite filter_cons. destruct (decide (P x)) as [Hx|Hx]; simpl.
  - case_decide; [apply IH|]. rewrite filter_cons_True by done. f_equal. apply IH.
  - case_decide; [apply IH|]. rewrite filter_cons_False by done.
    rewrite <- IH. apply drop_duplicates_from_seen_ext.
    intros r [Hr _]%list_elem_of_filter. rewrite elem_of_union, elem_of_singleton.
    split; [tauto|]. intros [E|?]; [|done]. exfalso. apply Hx. by apply (HP r).
Qed.

Lemma long_enough_length r :
  long_enough r ↔ (80 ≤ length (description r))%nat.
Proof.
  unfold long_enough. split.
  - intros H. destruct (decide (80 ≤ length (description r))%nat); [done|].
    exfalso. apply H. right. lia.
  - intros H [E|?]; [|lia]. rewrite E in H. simpl in H. lia.
Qed.

Lemma long_enough_signature a b :
  signature a = signature b → long_enough a → long_enough b.
Proof.
  intros [= _ _ E]. rewrite !long_enough_length.
  apply (f_equal length) in E. rewrite !length_take in E. lia.
Qed.

(** X8. Steps 6 and 7 can be taken in either order: whether a row is long
    enough shows in its signature (80 is below 250), so the rows saved
    are the same when duplicates are removed first. *)
Theorem quality_filter_drop_duplicates_commute out :
  drop_duplicates (quality_filter out) = quality_filter (drop_duplicates out).
Proof.
  rewrite !quality_filter_keep. unfold drop_duplicates.
  apply (drop_duplicates_from_filter long_enough). apply long_enough_signature.
Qed.

(** X9. A row whose raw description is null, or whose [str] has fewer
    than 80 characters, never passes step 6, whatever the other rows. *)
Theorem quality_filter_drops_short raw out :
  pd_isna (raw_description raw) = true
  ∨ (length (py_str (raw_description raw)) < 80)%nat →
  clean_row raw ∉ quality_filter out.
Proof.
  intros H Hin. rewrite quality_filter_keep in Hin.
  apply list_elem_of_filter in Hin as [Hlong _].
  apply long_enough_length in Hlong. simpl in Hlong.
  destruct H as [H|H].
  - unfold clean_description in Hlong. rewrite H in Hlong. simpl in Hlong. lia.
  - pose proof (proj2 (cleaners_length (raw_description raw))). lia.
Qed.

Lemma quality_filter_drops_short_witness :
  clean_row sample_short_raw ∉ quality_filter [clean_row sample_short_raw].
Proof.
  apply (quality_filter_drops_short sample_short_raw). right. vm_compute. lia.
Defined.

(** ** More on [main] of [jobs_clean.py] *)

Lemma index_of_None (c : pystr) (cols : list pystr) :
  c ∉ cols → index_of c cols = None.
Proof.
  induction cols as [|c' cols IH]; [done|].
  intros [Hne Hc]%not_elem_of_cons. simpl.
  case_decide; [done|]. by rewrite IH.
Qed.

Lemma opt_cell_absent df row (c : pystr) :
  c ∉ df_columns df → opt_cell df row c = VStr [].
Proof. intros H. unfold opt_cell. by rewrite index_of_None. Qed.

Lemma fillna_empty_not_null v : pd_isna (fillna_empty v) = false.
Proof. unfold fillna_empty. by destruct v. Qed.

(** X10. Step 3 on its own raises [KeyError] for a frame without one of
    the three required columns, naming the first one that is not there
    (in the order [job_id], [title], [description]); with the three, and
    no label twice, it builds one row for each row of the frame. *)
Theorem build_out_key_error df :
  ((∃ c, c ∈ required ∧ c ∉ df_columns df) →
     ∃ c rest,
       filter (λ c, c ∉ df_columns df) required = c :: rest
       ∧ build_out df = Raise (KeyError c))
  ∧ (NoDup (df_columns df) → (∀ c, c ∈ required → c ∈ df_columns df) →
       ∃ raw, build_out df = Ok raw ∧ length raw = length (df_rows df)).
Proof.
  split; [|intros _; apply build_out_present].
  intros (c & Hc & Hn). unfold build_out, col_index, required in *.
  rewrite !filter_cons, filter_nil.
  destruct (decide (py "job_id" ∈ df_columns df)) as [H1|H1].
  2:{ rewrite (index_of_None _ _ H1), decide_True by done. simpl. eauto. }
  destruct (index_of_elem _ _ H1) as [j1 ->].
  rewrite decide_False by (intros H; by apply H). simpl.
  destruct (decide (py "title" ∈ df_columns df)) as [H2|H2].
  2:{ rewrite (index_of_None _ _ H2), decide_True by done. simpl. eauto. }
  destruct (index_of_elem _ _ H2) as [j2 ->].
  rewrite decide_False by (intros H; by apply H). simpl.
  destruct (decide (py "description" ∈ df_columns df)) as [H3|H3].
  2:{ rewrite (index_of_None _ _ H3), decide_True by done. simpl. eauto. }
  exfalso. rewrite !elem_of_cons, elem_of_nil in Hc.
  destruct Hc as [->|[->|[->|[]]]]; done.
Qed.

Lemma build_out_key_error_witness :
  ∃ c rest,
    filter (λ c, c ∉ df_columns sample_df_no_description) required = c :: rest
    ∧ build_out sample_df_no_description = Raise (KeyError c).
Proof.
  apply (proj1 (build_out_key_error sample_df_no_description)).
  exists (py "description"). split.
  - do 2 apply list_elem_of_further. apply list_elem_of_here.
  - vm_compute. intros H. apply list_elem_of_In in H. simpl in H.
    destruct H as [H|[H|[]]]; discriminate H.
Defined.

Lemma build_out_rows df raw r :
  build_out df = Ok raw → r ∈ raw →
  ∃ i_job i_title i_desc row,
    index_of (py "job_id") (df_columns df) = Some i_job
    ∧ index_of (py "title") (df_columns df) = Some i_title
    ∧ index_of (py "description") (df_columns df) = Some i_desc
    ∧ row ∈ df_rows df
    ∧ raw_job_id <$> raw = (λ row, cell row i_job) <$> df_rows df
    ∧ raw_job_id r = cell row i_job
    ∧ raw_title r = cell row i_title
    ∧ raw_description r = cell row i_desc
    ∧ raw_company_id r = opt_cell df row (py "company_id")
    ∧ raw_location r = opt_cell df row (py "location")
    ∧ raw_work_type r = opt_cell df row (py "formatted_work_type")
    ∧ raw_remote_allowed r = opt_cell df row (py "remote_allowed")
    ∧ raw_experience_level r = opt_cell df row (py "formatted_experience_level")
    ∧ raw_job_posting_url r = opt_cell df row (py "job_posting_url").
Proof.
  unfold build_out, col_index.
  destruct (index_of (py "job_id") (df_columns df)) as [j1|]; simpl; [|done].
  destruct (index_of (py "title") (df_columns df)) as [j2|]; simpl; [|done].
  destruct (index_of (py "description") (df_columns df)) as [j3|]; simpl; [|done].
  intros [= <-] (row & -> & Hrow)%list_elem_of_fmap.
  exists j1, j2, j3, row. rewrite <- list_fmap_compose. done.
Qed.

Section JobsCleanMore.

Variable repr_str : pystr → pystr.

(** The rows [main] saves, from the rows step 3 builds. *)
Lemma main_saved df evs rows :
  main repr_str df = (evs, None) → ToCsv rows ∈ evs →
  ∃ raw,
    build_out {| df_columns := strip <$> df_columns df; df_rows := df_rows df |} = Ok raw
    ∧ rows = drop_duplicates (quality_filter (clean_row <$> raw)).
Proof.
  unfold main. simpl.
  destruct (filter _ required); [|done].
  destruct (build_out _) as [raw|] eqn:E; [|done].
  intros [= <-] Hin. exists raw. split; [done|].
  rewrite !elem_of_cons, elem_of_nil in Hin.
  destruct Hin as [?|[?|[?|[[= ->]|[?|[?|[?|[]]]]]]]]; done.
Qed.

Lemma main_saved_sublist raw :
  drop_duplicates (quality_filter (clean_row <$> raw)) `sublist_of` clean_row <$> raw.
Proof.
  etrans; [apply drop_duplicates_from_sublist|].
  rewrite quality_filter_keep. apply sublist_filter.
Qed.

(** X11. [main] never raises [KeyError]: the column accesses of step 3
    come after the schema check.  And when no two labels are the same
    after trimming, a [ValueError] of [main] is the one of the schema
    check: its list of missing columns is not empty and follows the order
    of the required columns, and only the first line was printed. *)
Theorem main_outcomes df :
  let cols := strip <$> df_columns df in
  (∀ key, (main repr_str df).2 ≠ Some (KeyError key))
  ∧ (NoDup cols → ∀ msg, (main repr_str df).2 = Some (ValueError msg) →
       ∃ missing,
         missing ≠ [] ∧ missing `sublist_of` required
         ∧ (∀ c, c ∈ missing ↔ c ∈ required ∧ c ∉ cols)
         ∧ msg = schema_message repr_str missing cols
         ∧ (main repr_str df).1 = [Printed (py "Raw shape:") [len (df_rows df); len cols]]).
Proof.
  intros cols. split.
  - intros key. destruct (main_cases repr_str df) as [[_ E]|[_ (raw & _ & E)]];
      by rewrite E.
  - intros _ msg. destruct (main_cases repr_str df) as [[Hne E]|[_ (raw & _ & E)]];
      rewrite E; [|done].
    intros [= <-]. eexists. split; [exact Hne|]. split; [apply sublist_filter|].
    split; [|done]. intros c. rewrite list_elem_of_filter. tauto.
Qed.

(** X12. Every row [main] saves comes from a row of the input: its
    [job_id] is the cell of that row, unchanged, its title and description
    are the cleaned cells; and the saved [job_id]s are, in order, among
    those of the input. *)
Theorem main_rows_from_input df evs rows :
  main repr_str df = (evs, None) → ToCsv rows ∈ evs →
  ∃ i_job i_title i_desc,
    index_of (py "job_id") (strip <$> df_columns df) = Some i_job
    ∧ index_of (py "title") (strip <$> df_columns df) = Some i_title
    ∧ index_of (py "description") (strip <$> df_columns df) = Some i_desc
    ∧ (job_id <$> rows) `sublist_of` ((λ row, cell row i_job) <$> df_rows df)
    ∧ ∀ r, r ∈ rows →
        ∃ row, row ∈ df_rows df
          ∧ job_id r = cell row i_job
          ∧ title r = clean_text (cell row i_title)
          ∧ description r = clean_description (cell row i_desc).
Proof.
  intros Hmain Hin. destruct (main_saved _ _ _ Hmain Hin) as (raw & Hraw & ->).
  set (df' := {| df_columns := strip <$> df_columns df; df_rows := df_rows df |}) in *.
  pose proof (main_saved_sublist raw) as Hsub.
  destruct (index_of (py "job_id") (df_columns df')) as [j1|] eqn:E1;
    [|unfold build_out, col_index in Hraw; by rewrite E1 in Hraw].
  destruct (index_of (py "title") (df_columns df')) as [j2|] eqn:E2;
    [|unfold build_out, col_index in Hraw; by rewrite E1, E2 in Hraw].
  destruct (index_of (py "description") (df_columns df')) as [j3|] eqn:E3;
    [|unfold build_out, col_index in Hraw; by rewrite E1, E2, E3 in Hraw].
  exists j1, j2, j3. do 3 (split; [done|]). split.
  - assert (raw_job_id <$> raw = (λ row, cell row j1) <$> df_rows df) as <-.
    { unfold build_out, col_index in Hraw. rewrite E1, E2, E3 in Hraw.
      simpl in Hraw. injection Hraw as <-. by rewrite <- list_fmap_compose. }
    replace (raw_job_id <$> raw) with (job_id <$> (clean_row <$> raw))
      by (by rewrite <- list_fmap_compose).
    by apply fmap_sublist.
  - intros r Hr. eapply elem_of_sublist in Hr; [|exact Hsub].
    apply list_elem_of_fmap in Hr as (x & -> & Hx).
    destruct (build_out_rows df' raw x Hraw Hx)
      as (k1 & k2 & k3 & row & K1 & K2 & K3 & Hrow & _ & Hj & Ht & Hd & _).
    exists row. simpl. rewrite Hj, Ht, Hd.
    assert (k1 = j1 ∧ k2 = j2 ∧ k3 = j3) as (-> & -> & ->)
      by (repeat split; congruence).
    done.
Qed.

(** X13. In every row [main] saves, [remote_allowed] is not null, and a
    field whose source column the input does not have is empty; the
    work type and the experience level are read from the columns
    [formatted_work_type] and [formatted_experience_level] only. *)
Theorem main_optional_columns df evs rows r :
  main repr_str df = (evs, None) → ToCsv rows ∈ evs → r ∈ rows →
  let cols := strip <$> df_columns df in
  pd_isna (remote_allowed r) = false
  ∧ (py "company_id" ∉ cols → company_id r = VStr [])
  ∧ (py "location" ∉ cols → location r = [])
  ∧ (py "formatted_work_type" ∉ cols → work_type r = [])
  ∧ (py "remote_allowed" ∉ cols → remote_allowed r = VStr [])
  ∧ (py "formatted_experience_level" ∉ cols → experience_level r = [])
  ∧ (py "job_posting_url" ∉ cols → job_posting_url r = []).
Proof.
  intros Hmain Hin Hr cols. destruct (main_saved _ _ _ Hmain Hin) as (raw & Hraw & ->).
  set (df' := {| df_columns := cols; df_rows := df_rows df |}) in *.
  eapply elem_of_sublist in Hr; [|apply main_saved_sublist].
  apply list_elem_of_fmap in Hr as (x & -> & Hx).
  destruct (build_out_rows df' raw x Hraw Hx)
    as (k1 & k2 & k3 & row & _ & _ & _ & _ & _ & _ & _ & _ & Hc & Hl & Hw & Hra & He & Hu).
  simpl. rewrite Hc, Hl, Hw, Hra, He, Hu.
  split; [apply fillna_empty_not_null|].
  repeat split; intros Habs; by rewrite (opt_cell_absent df').
Qed.

(** X14. The text fields of the rows [main] saves are clean: cleaning
    them once more changes none of them. *)
Theorem main_rows_clean df evs rows r :
  main repr_str df = (evs, None) → ToCsv rows ∈ evs → r ∈ rows →
  clean_text (VStr (title r)) = title r
  ∧ clean_text (VStr (location r)) = location r
  ∧ clean_description (VStr (description r)) = description r
  ∧ clean_text (VStr (work_type r)) = work_type r
  ∧ clean_text (VStr (experience_level r)) = experience_level r
  ∧ clean_text (VStr (job_posting_url r)) = job_posting_url r.
Proof.
  intros Hmain Hin Hr. destruct (main_saved _ _ _ Hmain Hin) as (raw & Hraw & ->).
  eapply elem_of_sublist in Hr; [|apply main_saved_sublist].
  apply list_elem_of_fmap in Hr as (x & -> & Hx). simpl.
  repeat split; (apply clean_text_idempotent || apply clean_description_idempotent).
Qed.

End JobsCleanMore.

Lemma main_rows_from_input_witness :
  ∃ i_job i_title i_desc,
    index_of (py "job_id") (strip <$> df_columns sample_df) = Some i_job
    ∧ index_of (py "title") (strip <$> df_columns sample_df) = Some i_title
    ∧ index_of (py "description") (strip <$> df_columns sample_df) = Some i_desc
    ∧ (job_id <$> sample_out) `sublist_of` ((λ row, cell row i_job) <$> df_rows sample_df)
    ∧ ∀ r, r ∈ sample_out →
        ∃ row, row ∈ df_rows sample_df
          ∧ job_id r = cell row i_job
          ∧ title r = clean_text (cell row i_title)
          ∧ description r = clean_description (cell row i_desc).
Proof.
  apply (main_rows_from_input sample_repr sample_df (main sample_repr sample_df).1).
  - vm_compute. reflexivity.
  - vm_compute. do 3 apply list_elem_of_further. apply list_elem_of_here.
Defined.

Lemma main_optional_columns_witness :
  pd_isna (remote_allowed sample_row) = false
  ∧ (py "company_id" ∉ strip <$> df_columns sample_df → company_id sample_row = VStr [])
  ∧ (py "location" ∉ strip <$> df_columns sample_df → location sample_row = [])
  ∧ (py "formatted_work_type" ∉ strip <$> df_columns sample_df → work_type sample_row = [])
  ∧ (py "remote_allowed" ∉ strip <$> df_columns sample_df →
       remote_allowed sample_row = VStr [])
  ∧ (py "formatted_experience_level" ∉ strip <$> df_columns sample_df →
       experience_level sample_row = [])
  ∧ (py "job_posting_url" ∉ strip <$> df_columns sample_df →
       job_posting_url sample_row = []).
Proof.
  apply (main_optional_columns sample_repr sample_df (main sample_repr sample_df).1
           sample_out sample_row).
  - vm_compute. reflexivity.
  - vm_compute. do 3 apply list_elem_of_further. apply list_elem_of_here.
  - vm_compute. apply list_elem_of_here.
Defined.

Lemma main_rows_clean_witness :
  clean_text (VStr (title sample_row)) = title sample_row
  ∧ clean_text (VStr (location sample_row)) = location sample_row
  ∧ clean_description (VStr (description sample_row)) = description sample_row
  ∧ clean_text (VStr (work_type sample_row)) = work_type sample_row
  ∧ clean_text (VStr (experience_level sample_row)) = experience_level sample_row
  ∧ clean_text (VStr (job_posting_url sample_row)) = job_posting_url sample_row.
Proof.
  apply (main_rows_clean sample_repr sample_df (main sample_repr sample_df).1
           sample_out sample_row).
  - vm_compute. reflexivity.
  - vm_compute. do 3 apply list_elem_of_further. apply list_elem_of_here.
  - vm_compute. apply list_elem_of_here.
Defined.

Lemma drop_duplicates_signatures_witness :
  signature sample_row ∈ signature <$> drop_duplicates [sample_row; sample_row].
Proof.
  apply (proj2 (proj1 (drop_duplicates_signatures [sample_row; sample_row]) _)).
  rewrite fmap_cons. apply list_elem_of_here.
Defined.

(** ** [strip] *)

Lemma space_run_app_spaces a t :
  Forall (λ c, is_space c = true) a → drop (space_run (a ++ t)) (a ++ t) = lstrip t.
Proof. induction 1 as [|c a Hc _ IH]; [done|]. simpl. by rewrite Hc. Qed.

Lemma rstrip_spaces b : Forall (λ c, is_space c = true) b → rstrip b = [].
Proof. induction 1 as [|c b Hc _ IH]; [done|]. simpl. by rewrite IH, Hc. Qed.

Lemma rstrip_app_spaces x b :
  Forall (λ c, is_space c = true) b → rstrip (x ++ b) = rstrip x.
Proof.
  intros Hb. induction x as [|c x IH]; simpl; [by apply rstrip_spaces|].
  by rewrite IH.
Qed.

Lemma rstrip_last s :
  (∀ c, last s = Some c → is_space c = false) → rstrip s = s.
Proof.
  induction s as [|c r IH]; [done|]. intros H. simpl. destruct r as [|d r'].
  - simpl. by rewrite (H c).
  - rewrite IH by (intros c' Hc'; by apply H). done.
Qed.

Lemma strip_padding a core b :
  Forall (λ c, is_space c = true) a →
  Forall (λ c, is_space c = true) b →
  (∀ c, head core = Some c → is_space c = false) →
  (∀ c, last core = Some c → is_space c = false) →
  strip (a ++ core ++ b) = core.
Proof.
  intros Ha Hb Hhead Hlast. unfold strip, lstrip at 1.
  rewrite space_run_app_spaces by done.
  assert (lstrip (core ++ b) = core ++ b ∨ core = []) as [->| ->].
  { destruct core as [|c r]; [by right|left].
    apply lstrip_id. simpl. by rewrite (Hhead c). }
  - rewrite rstrip_app_spaces by done. by apply rstrip_last.
  - simpl. unfold lstrip. apply rstrip_spaces. by apply Forall_drop.
Qed.

(** X15. [strip] removes the whitespace around a core that neither begins
    nor ends with whitespace, and nothing else: it returns the core. *)
Theorem strip_core a core b :
  Forall (λ c, is_space c = true) a →
  Forall (λ c, is_space c = true) b →
  (∀ c, head core = Some c → is_space c = false) →
  (∀ c, last core = Some c → is_space c = false) →
  strip (a ++ core ++ b) = core.
Proof. apply strip_padding. Qed.

Lemma strip_core_witness :
  strip (py "  " ++ py "job_id" ++ [9; 10]) = py "job_id".
Proof.
  apply (strip_core (py "  ") (py "job_id") [9; 10]).
  - by repeat constructor.
  - by repeat constructor.
  - intros c [= <-]. reflexivity.
  - intros c [= <-]. reflexivity.
Defined.

(** ** More on the adapter *)

Section LlmReasoningMore.

Variable read_text : pystr → res pystr.
Variable json_loads : pystr → res json.
Variable json_dumps : json → pystr.
Variable call_llm : pystr → res pystr.

(** X16. [safe_parse_json] gives [json.loads] the reply without the
    whitespace around it. *)
Theorem safe_parse_json_padding a core b :
  Forall (λ c, is_space c = true) a →
  Forall (λ c, is_space c = true) b →
  (∀ c, head core = Some c → is_space c = false) →
  (∀ c, last core = Some c → is_space c = false) →
  safe_parse_json json_loads (a ++ core ++ b) = json_loads core.
Proof. intros. unfold safe_parse_json. by rewrite strip_padding. Qed.

(** X17. When the files are read and parsed and the provider answers with
    JSON that is not an object (a list, a number, a string, [null]),
    [run_one] raises [TypeError] at the assignment of [fit_score]. *)
Theorem run_one_reply_not_object job_path resume_path fit_score
    prompt resume_text resume_json job_text job_json raw reply :
  read_text PROMPT_PATH = Ok prompt →
  read_text resume_path = Ok resume_text →
  json_loads resume_text = Ok resume_json →
  read_text job_path = Ok job_text →
  json_loads job_text = Ok job_json →
  call_llm (build_message json_dumps prompt fit_score resume_json job_json) = Ok raw →
  json_loads (strip raw) = Ok reply →
  (∀ fields, reply ≠ JObj fields) →
  run_one read_text json_loads json_dumps call_llm job_path resume_path fit_score
    = Raise TypeError.
Proof.
  intros H1 H2 H3 H4 H5 H6 H7 Hobj. unfold run_one, load_prompt, safe_parse_json.
  rewrite H1. simpl. rewrite H2. simpl. rewrite H3. simpl. rewrite H4. simpl.
  rewrite H5. simpl. rewrite H6. simpl. rewrite H7. simpl.
  destruct reply; try done. by destruct (Hobj fields).
Qed.

(** An exception of a step of [run_one] is the exception of [run_one]. *)
Lemma run_one_raises_placeholder job_path resume_path fit_score :
  ∃ e,
    run_one read_text json_loads json_dumps call_llm_placeholder
      job_path resume_path fit_score = Raise e.
Proof.
  unfold run_one, load_prompt.
  destruct (read_text PROMPT_PATH); simpl; [|eauto].
  destruct (read_text resume_path) as [rt|]; simpl; [|eauto].
  destruct (json_loads rt); simpl; [|eauto].
  destruct (read_text job_path) as [jt|]; simpl; [|eauto].
  destruct (json_loads jt); simpl; eauto.
Qed.

(** X18. With [call_llm] as the repository has it, [main] of
    [llm_reasoning.py] writes no file and prints nothing: it ends with an
    exception at the first job. *)
Theorem reasoning_main_placeholder :
  ∃ e,
    reasoning_main read_text json_loads json_dumps call_llm_placeholder
      = ([], Some e).
Proof.
  unfold reasoning_main, reasoning_jobs. simpl.
  destruct (run_one_raises_placeholder
    (path_join SAMPLES_DIR (py "job_1.json"))
    (path_join SAMPLES_DIR (py "resume_1.json")) 82) as [e ->].
  eauto.
Qed.



(** X20. A run of [run_one] that returns has sent the provider one
    message: the prompt template, the heading of the input, the dump of an
    object with exactly the three keys [fit_score] (the score given),
    [resume_json] and [job_json] (the two files, parsed), and the heading
    of the output. *)
Theorem run_one_message job_path resume_path fit_score result :
  run_one read_text json_loads json_dumps call_llm job_path resume_path fit_score
    = Ok result →
  ∃ prompt resume_text resume_json job_text job_json payload raw,
    read_text PROMPT_PATH = Ok prompt
    ∧ read_text resume_path = Ok resume_text ∧ json_loads resume_text = Ok resume_json
    ∧ read_text job_path = Ok job_text ∧ json_loads job_text = Ok job_json
    ∧ call_llm (prompt ++ [10; 10] ++ py "### INPUT" ++ [10]
                  ++ json_dumps (JObj payload)
                  ++ [10; 10] ++ py "### OUTPUT (JSON only)" ++ [10]) = Ok raw
    ∧ payload !! py "fit_score" = Some (JInt fit_score)
    ∧ payload !! py "resume_json" = Some resume_json
    ∧ payload !! py "job_json" = Some job_json
    ∧ dom payload = {[py "fit_score"; py "resume_json"; py "job_json"]}.
Proof.
  unfold run_one, load_prompt. simpl.
  destruct (read_text PROMPT_PATH) as [prompt|]; simpl; [|done].
  destruct (read_text resume_path) as [resume_text|] eqn:E2; simpl; [|done].
  destruct (json_loads resume_text) as [resume_json|] eqn:E3; simpl; [|done].
  destruct (read_text job_path) as [job_text|] eqn:E4; simpl; [|done].
  destruct (json_loads job_text) as [job_json|] eqn:E5; simpl; [|done].
  destruct (call_llm _) as [raw|] eqn:E6; simpl; [|done].
  intros _. unfold build_message in E6.
  eexists prompt, resume_text, resume_json, job_text, job_json, _, raw.
  do 5 (split; [done|]). split; [exact E6|].
  split; [by rewrite !lookup_insert_ne, lookup_insert_eq by done|].
  split; [by rewrite lookup_insert_ne, lookup_insert_eq by done|].
  split; [by rewrite lookup_insert_eq|].
  rewrite !dom_insert_L, dom_empty_L. set_solver.
Qed.

End LlmReasoningMore.

Example path_stem_ex :
  path_stem (py "samples/job_1.json") = py "job_1"
  ∧ path_stem (py "a.b/.hidden") = py ".hidden"
  ∧ path_stem (py "archive.tar.gz") = py "archive.tar"
  ∧ path_stem (py "a/b.c/") = py "b"
  ∧ path_stem (py "a//./b.c") = py "b"
  ∧ path_name (py "/") = []
  ∧ path_name (py "a/..") = py "..".
Proof. vm_compute. done. Qed.

Lemma safe_parse_json_padding_witness :
  safe_parse_json sample_json_loads (py " " ++ py "reply" ++ py " ")
  = sample_json_loads (py "reply").
Proof.
  apply (safe_parse_json_padding sample_json_loads (py " ") (py "reply") (py " ")).
  - by repeat constructor.
  - by repeat constructor.
  - intros c [= <-]. reflexivity.
  - intros c [= <-]. reflexivity.
Defined.

Lemma run_one_reply_not_object_witness :
  run_one sample_read_text sample_json_loads_list sample_json_dumps sample_call_llm
    (py "samples/job_1.json") (py "samples/resume_1.json") 82
  = Raise TypeError.
Proof.
  apply (run_one_reply_not_object sample_read_text sample_json_loads_list
           sample_json_dumps sample_call_llm
           (py "samples/job_1.json") (py "samples/resume_1.json") 82
           (py "{}") (py "{}") (JObj ∅) (py "{}") (JObj ∅) (py " reply ") (JArr []));
    try reflexivity.
  intros fields. discriminate.
Defined.


Lemma run_one_message_witness :
  ∃ prompt resume_text resume_json job_text job_json payload raw,
    sample_read_text PROMPT_PATH = Ok prompt
    ∧ sample_read_text (py "samples/resume_1.json") = Ok resume_text
    ∧ sample_json_loads resume_text = Ok resume_json
    ∧ sample_read_text (py "samples/job_1.json") = Ok job_text
    ∧ sample_json_loads job_text = Ok job_json
    ∧ sample_call_llm (prompt ++ [10; 10] ++ py "### INPUT" ++ [10]
                         ++ sample_json_dumps (JObj payload)
                         ++ [10; 10] ++ py "### OUTPUT (JSON only)" ++ [10]) = Ok raw
    ∧ payload !! py "fit_score" = Some (JInt 82)
    ∧ payload !! py "resume_json" = Some resume_json
    ∧ payload !! py "job_json" = Some job_json
    ∧ dom payload = {[py "fit_score"; py "resume_json"; py "job_json"]}.
Proof.
  apply (run_one_message sample_read_text sample_json_loads sample_json_dumps
           sample_call_llm (py "samples/job_1.json") (py "samples/resume_1.json") 82
           (JObj (<[py "fit_score" := JInt 82]> sample_reply_fields))).
  reflexivity.
Defined.

Lemma main_outcomes_witness :
  ∃ missing,
    missing ≠ [] ∧ missing `sublist_of` required
    ∧ (∀ c, c ∈ missing ↔
         c ∈ required ∧ c ∉ strip <$> df_columns sample_df_no_description)
    ∧ py "Missing required columns: ['description']" ++ [10]
        ++ py "Found: ['job_id', 'title']"
      = schema_message sample_repr missing (strip <$> df_columns sample_df_no_description)
    ∧ (main sample_repr sample_df_no_description).1
      = [Printed (py "Raw shape:")
           [len (df_rows sample_df_no_description);
            len (strip <$> df_columns sample_df_no_description)]].
Proof.
  apply (proj2 (main_outcomes sample_repr sample_df_no_description)).
  - apply (bool_decide_unpack _). vm_compute. reflexivity.
  - vm_compute. reflexivity.
Defined.
